(** * util/helm/cmd.go: the wrapper around the "helm" command

    A shallow embedding of [util/helm/cmd.go] and the properties of its
    command construction, credential files, output redaction and session
    handling.

    Go strings and byte slices are sequences of bytes: they are embedded
    as [string] (a list of 8-bit [ascii]).  Go maps are [gmap]s.  The file
    system, the process environment and the launched child processes are an
    explicit [World]; what the operating system and the Go runtime decide
    (temporary names, I/O failures, the outcome of a child process, the
    order of a map [range]) is an [OS] record of oracles. *)

From Stdlib Require Import Ascii.
From Stdlib Require String.
From stdpp Require Import base option list strings gmap fin_maps.

(* stdpp keeps [simpl] from unfolding the append of strings; the scans
   below are by cases on the first bytes of a string. *)
#[local] Arguments String.append !_ _ / : simpl nomatch.

(** ** Strings *)

Module Str.

(** [strings.HasPrefix(s, p)]. *)
Fixpoint has_prefix (p s : string) : bool :=
  match p, s with
  | EmptyString, _ => true
  | String a p', String b s' => Ascii.eqb a b && has_prefix p' s'
  | String _ _, EmptyString => false
  end.

(** [strings.HasSuffix(s, f)]: some tail of [s] is [f]. *)
Fixpoint has_suffix (f s : string) : bool :=
  String.eqb f s ||
  match s with
  | EmptyString => false
  | String _ s' => has_suffix f s'
  end.

(** [s[n:]], the whole string gone when it is shorter than [n]. *)
Fixpoint drop (n : nat) (s : string) : string :=
  match n, s with
  | O, _ => s
  | S n', String _ s' => drop n' s'
  | S _, EmptyString => EmptyString
  end.

(** The byte [c] occurs in [s]. *)
Fixpoint mem (c : ascii) (s : string) : bool :=
  match s with
  | EmptyString => false
  | String a s' => Ascii.eqb a c || mem c s'
  end.

(** [strings.Contains(s, sub)]. *)
Fixpoint contains (sub s : string) : bool :=
  has_prefix sub s ||
  match s with
  | EmptyString => false
  | String _ s' => contains sub s'
  end.

(** [strings.Join(ts, sep)]. *)
Fixpoint join (sep : string) (ts : list string) : string :=
  match ts with
  | [] => ""
  | [t] => t
  | t :: ts' => t +:+ sep +:+ join sep ts'
  end.

End Str.

(** ** Regular expressions

    [regexp.Regexp.ReplaceAllString(src, repl)] scans [src] from left to
    right; at the leftmost position where the expression matches it writes
    the expansion of [repl] and goes on after the match; a byte at which
    nothing matches is copied.  Neither expression of this file matches the
    empty string.  A [matcher] is the expression together with its
    template: at a position it gives the expansion and the input left
    after the match. *)

Module Regexp.

Definition matcher := string → option (string * string).

Fixpoint replace_all (m : matcher) (fuel : nat) (src : string) : string :=
  match fuel with
  | O => src
  | S fuel' =>
      match m src with
      | Some (out, rest) => out +:+ replace_all m fuel' rest
      | None =>
          match src with
          | EmptyString => EmptyString
          | String c src' => String c (replace_all m fuel' src')
          end
      end
  end.

(** Every step consumes at least one byte of [src], so [length src]
    steps are enough. *)
Definition ReplaceAllString (m : matcher) (src : string) : string :=
  replace_all m (S (String.length src)) src.

(** A match consumes at least one byte. *)
Definition progressive (m : matcher) : Prop :=
  ∀ s out rest, m s = Some (out, rest) →
    String.length rest < String.length s.

End Regexp.

(** ** The redactor (cmd.go, lines 39-41) *)

(** [[^ ]*]: the longest run of bytes other than the space; what is left
    starts at the first space.  A byte of a multi-byte rune is never the
    space, so bytes and runes agree here. *)
Fixpoint skip_value (s : string) : string :=
  match s with
  | EmptyString => EmptyString
  | String c s' => if Ascii.eqb c " " then s else skip_value s'
  end.

(** [(--username|--password) [^ ]*] with the template ["$1 ******"]. *)
Definition redact_match : Regexp.matcher := λ s,
  if Str.has_prefix "--username " s then
    Some ("--username" +:+ " ******", skip_value (Str.drop 11 s))
  else if Str.has_prefix "--password " s then
    Some ("--password" +:+ " ******", skip_value (Str.drop 11 s))
  else None.

Definition redactor (text : string) : string :=
  Regexp.ReplaceAllString redact_match text.

(** ** cleanSetParameters (cmd.go, lines 182-188) *)

Definition backslash : ascii := Ascii.ascii_of_nat 92.
Definition comma : ascii := ","%char.

(** [([^\\]),] with the template [$1\,]: a byte other than the backslash,
    then a comma.  The byte before the comma is copied as it is, so the
    last byte of a multi-byte rune stands for the rune. *)
Definition clean_match : Regexp.matcher := λ s,
  match s with
  | String c (String d rest) =>
      if negb (Ascii.eqb c backslash) && Ascii.eqb d comma
      then Some (String c (String backslash (String comma EmptyString)), rest)
      else None
  | _ => None
  end.

Definition cleanSetParameters (val : string) : string :=
  Regexp.ReplaceAllString clean_match val.

(** ** The world outside the program *)

(** An entry of the file system. *)
Inductive node :=
  | Directory
  | Regular (content : string).

(** [exec.Cmd]: the program, its arguments (the program name excluded),
    its working directory and its environment. *)
Record Process := {
  Path : string;
  Args : list string;
  Dir : string;
  Env : list string }.

(** [error] values of this file: a failed file operation and a child
    process that exited with a nonzero code. *)
Inductive error :=
  | PathError (op path : string)
  | ExitError (exitCode : nat) (output : string).

Record World := {
  fs : gmap string node;        (* the paths on disk *)
  environ : list string;        (* [os.Environ()] *)
  seed : nat;                   (* state of the runtime's random source *)
  created : list string;        (* paths made by TempFile and TempDir, oldest first *)
  launched : list Process }.    (* child processes started, oldest first *)

Definition set_fs (f : gmap string node) (w : World) : World :=
  {| fs := f; environ := environ w; seed := seed w;
     created := created w; launched := launched w |}.

(** What the operating system and the runtime decide. *)
Record OS := {
  (* [os.TempDir()] *)
  tempRoot : string;
  (* the random part of a temporary name, [None] when creation fails *)
  temp_suffix : World → string → string → option string;
  (* [None] when a write succeeds, else the content it leaves behind *)
  write_fault : World → string → string → option string;
  (* a child process: the file system it leaves, its combined output and
     its exit code *)
  spawn : Process → World → gmap string node * string * nat;
  (* the order in which [range] visits the entries of a map *)
  range_order : World → gmap string string → list (string * string);
  range_order_perm : ∀ w m, range_order w m ≡ₚ map_to_list m }.

(** ** Go functions: early return and [defer] *)

Record Frame := {
  world : World;
  deferred : list (World → World) }.   (* most recent first *)

(** A statement of a function whose results have type [R]: it either goes
    on with an [A] or returns an [R]. *)
Definition Go (R A : Type) : Type := Frame → (A + R) * Frame.

#[global] Instance go_ret {R} : MRet (Go R) := λ A a f, (inl a, f).

#[global] Instance go_bind {R} : MBind (Go R) := λ A B k m f,
  match m f with
  | (inl a, f') => k a f'
  | (inr r, f') => (inr r, f')
  end.

Definition Return {R A} (r : R) : Go R A := λ f, (inr r, f).

Definition call {R A} (g : World → A * World) : Go R A := λ f,
  let '(a, w') := g (world f) in
  (inl a, {| world := w'; deferred := deferred f |}).

Definition defer {R} (d : World → World) : Go R unit := λ f,
  (inl tt, {| world := world f; deferred := d :: deferred f |}).

(** [if err != nil { ... }] *)
Definition ifErr {R} (err : option error) (k : error → Go R unit) : Go R unit :=
  match err with
  | Some e => k e
  | None => mret tt
  end.

(** A function body: the deferred calls run when it returns, last in
    first out, whatever the return. *)
Definition func {R} (body : Go R R) (w : World) : R * World :=
  let '(x, f) := body {| world := w; deferred := [] |} in
  (match x with inl r => r | inr r => r end,
   foldl (λ w' d, d w') (world f) (deferred f)).

(** ** Library functions: io/ioutil and os *)

Section Helm.

Context (os : OS).

(** [dir] when given, else [os.TempDir()]. *)
Definition temp_dir_of (dir : string) : string :=
  if String.eqb dir "" then tempRoot os else dir.

(** A new entry [dir/pattern<random>] (no pattern of this file has a
    star).  The name is one that does not exist yet: the call fails
    otherwise. *)
Definition create_temp (n : node) (op dir pattern : string) (w : World)
  : (string * option error) * World :=
  match temp_suffix os w dir pattern with
  | None => (("", Some (PathError op (temp_dir_of dir))), w)
  | Some r =>
      let name := temp_dir_of dir +:+ "/" +:+ pattern +:+ r in
      match fs w !! name with
      | Some _ => (("", Some (PathError op name)), w)
      | None =>
          ((name, None),
           {| fs := <[name := n]> (fs w); environ := environ w; seed := seed w;
              created := created w ++ [name]; launched := launched w |})
      end
  end.

(** [ioutil.TempFile(dir, pattern)]; the file is known by its name. *)
Definition TempFile : string → string → World → (string * option error) * World :=
  create_temp (Regular "") "open".

(** [ioutil.TempDir(dir, pattern)]. *)
Definition TempDir : string → string → World → (string * option error) * World :=
  create_temp Directory "mkdir".

(** [ioutil.WriteFile(name, data, perm)]. *)
Definition WriteFile (name data : string) (w : World) : option error * World :=
  match write_fault os w name data with
  | None => (None, set_fs (<[name := Regular data]> (fs w)) w)
  | Some part => (Some (PathError "write" name), set_fs (<[name := Regular part]> (fs w)) w)
  end.

(** [file.Write(data)] on the file [name]. *)
Definition Write (name data : string) (w : World) : option error * World :=
  let old := match fs w !! name with Some (Regular s) => s | _ => "" end in
  match write_fault os w name data with
  | None => (None, set_fs (<[name := Regular (old +:+ data)]> (fs w)) w)
  | Some part => (Some (PathError "write" name), set_fs (<[name := Regular part]> (fs w)) w)
  end.

(** [p] is [path] or lies below it. *)
Definition below (path p : string) : bool :=
  String.eqb p path || Str.has_prefix (path +:+ "/") p.

(** [os.RemoveAll(path)]: removes [path] and what it contains; no error
    when [path] does not exist; nothing is done for the empty path.  The
    file system of the model has no permissions: the removal of an entry
    that exists succeeds. *)
Definition RemoveAll (path : string) (w : World) : option error * World :=
  if String.eqb path "" then (None, w)
  else (None, set_fs (filter (λ kv, below path kv.1 = false) (fs w)) w).


(** ** Declarations of the repository that cmd.go uses *)

(** Modelled from the spec: the struct [HelmVer] (the spec's ToolProfile)
    is declared outside cmd.go; its fields are those that cmd.go reads. *)
Record HelmVer := {
  binaryName : string;
  initSupported : bool;
  pullCommand : string;
  showCommand : string;
  templateNameArg : string;
  kubeVersionSupported : bool }.

(** Modelled from the spec: the struct [Creds] (the spec's Credentials) is
    declared outside cmd.go; its fields are those that cmd.go reads. *)
Record Creds := {
  Username : string;
  Password : string;
  CAPath : string;
  CertData : string;
  KeyData : string }.

(** [io.Closer]. *)
Definition Closer := World → option error * World.

(** Modelled from the spec: [util.NewCloser] is defined outside cmd.go; it
    makes the closer whose [Close] calls the function. *)
Definition NewCloser (f : World → option error * World) : Closer := f.

(** Modelled from the spec: [util.Close] is defined outside cmd.go; it
    calls [Close] and does not return the error (a failed best-effort
    cleanup is only logged). *)
Definition Close_ (c : option Closer) (w : World) : World :=
  match c with
  | Some f => (f w).2
  | None => w
  end.

(** Modelled from the spec: [executil.RunWithRedactor] is defined outside
    cmd.go.  It launches the process and waits for it; on exit code zero it
    returns the redacted combined output, else it fails with the exit code
    and the redacted combined output. *)
Definition RunWithRedactor (cmd : Process) (redact : string → string) (w : World)
  : (string * option error) * World :=
  let '(fs', out, code) := spawn os cmd w in
  let w' := {| fs := fs'; environ := environ w; seed := seed w;
               created := created w; launched := launched w ++ [cmd] |} in
  match code with
  | O => ((redact out, None), w')
  | S _ => (("", Some (ExitError code (redact out))), w')
  end.

(** ** cmd.go *)

(** The struct [Cmd]; the fields of the embedded [HelmVer] are read
    through the coercion. *)
Record Cmd := {
  ver :> HelmVer;
  helmHome : string;
  WorkDir : string }.

(** [s != ""] and [len(data) > 0]. *)
Definition nonempty (s : string) : bool := negb (String.eqb s "").

(** [Cmd.run] *)
Definition run (c : Cmd) (args : list string) (w : World)
  : (string * option error) * World :=
  let cmd := {|
    Path := binaryName c;
    Args := args;
    Dir := WorkDir c;
    Env := environ w ++
      [ "XDG_CACHE_HOME=" +:+ helmHome c +:+ "/cache";
        "XDG_CONFIG_HOME=" +:+ helmHome c +:+ "/config";
        "XDG_DATA_HOME=" +:+ helmHome c +:+ "/data";
        "HELM_HOME=" +:+ helmHome c ] |} in
  RunWithRedactor cmd redactor w.

(** [Cmd.Init] *)
Definition Init (c : Cmd) (w : World) : (string * option error) * World :=
  if initSupported c then run c ["init"; "--client-only"; "--skip-refresh"] w
  else (("", None), w).

(** [Cmd.RepoAdd] *)
Definition RepoAdd (c : Cmd) (name url : string) (opts : Creds)
  : World → (string * option error) * World :=
  func (
    '(tmp, err) ← call (TempDir "" "helm");
    ifErr err (λ e, Return ("", Some e));;
    defer (λ w, (RemoveAll tmp w).2);;
    let args := ["repo"; "add"] in
    let args := if nonempty (Username opts)
                then args ++ ["--username"; Username opts] else args in
    let args := if nonempty (Password opts)
                then args ++ ["--password"; Password opts] else args in
    let args := if nonempty (CAPath opts)
                then args ++ ["--ca-file"; CAPath opts] else args in
    args ← (if nonempty (CertData opts) then
              '(certFile, err) ← call (TempFile "" "helm");
              ifErr err (λ e, Return ("", Some e));;
              err ← call (Write certFile (CertData opts));
              ifErr err (λ e, Return ("", Some e));;
              mret (args ++ ["--cert-file"; certFile])
            else mret args);
    args ← (if nonempty (KeyData opts) then
              '(keyFile, err) ← call (TempFile "" "helm");
              ifErr err (λ e, Return ("", Some e));;
              err ← call (Write keyFile (KeyData opts));
              ifErr err (λ e, Return ("", Some e));;
              mret (args ++ ["--key-file"; keyFile])
            else mret args);
    let args := args ++ [name; url] in
    r ← call (run c args);
    Return r).

(** [writeToTmp] *)
Definition writeToTmp (data : string)
  : World → (string * option Closer * option error) * World :=
  func (
    '(file, err) ← call (TempFile "" "");
    ifErr err (λ e, Return ("", None, Some e));;
    err ← call (WriteFile file data);
    ifErr err (λ e,
      call (RemoveAll file);;
      Return ("", None, Some e));;
    Return (file, Some (NewCloser (RemoveAll file)), None)).

(** [Cmd.Fetch] *)
Definition Fetch (c : Cmd) (repo chartName version destination : string) (creds : Creds)
  : World → (string * option error) * World :=
  func (
    let args := [pullCommand c; "--destination"; destination] in
    let args := if nonempty version
                then args ++ ["--version"; version] else args in
    let args := if nonempty (Username creds)
                then args ++ ["--username"; Username creds] else args in
    let args := if nonempty (Password creds)
                then args ++ ["--password"; Password creds] else args in
    let args := if nonempty (CAPath creds)
                then args ++ ["--ca-file"; CAPath creds] else args in
    args ← (if nonempty (CertData creds) then
              '(filePath, closer, err) ← call (writeToTmp (CertData creds));
              ifErr err (λ e, Return ("", Some e));;
              defer (Close_ closer);;
              mret (args ++ ["--cert-file"; filePath])
            else mret args);
    args ← (if nonempty (KeyData creds) then
              '(filePath, closer, err) ← call (writeToTmp (KeyData creds));
              ifErr err (λ e, Return ("", Some e));;
              defer (Close_ closer);;
              mret (args ++ ["--key-file"; filePath])
            else mret args);
    let args := args ++ ["--repo"; repo; chartName] in
    r ← call (run c args);
    Return r).

(** [Cmd.dependencyBuild] *)
Definition dependencyBuild (c : Cmd) : World → (string * option error) * World :=
  run c ["dependency"; "build"].

(** [Cmd.inspectValues] *)
Definition inspectValues (c : Cmd) (values : string)
  : World → (string * option error) * World :=
  run c [showCommand c; "values"; values].

Record TemplateOpts := {
  Name : string;
  Namespace : string;
  KubeVersion : string;
  APIVersions : list string;
  Set_ : gmap string string;
  SetString : gmap string string;
  SetFile : gmap string string;
  Values : list string }.

(** [for key, val := range m]: the runtime picks the order of the entries
    and its random source moves on. *)
Definition range (m : gmap string string) (w : World)
  : list (string * string) * World :=
  (range_order os w m,
   {| fs := fs w; environ := environ w; seed := S (seed w);
      created := created w; launched := launched w |}).

(** The arguments one entry of a [--set] mapping adds. *)
Definition set_flag (flag : string) (args : list string) (kv : string * string)
  : list string :=
  args ++ [flag; kv.1 +:+ "=" +:+ cleanSetParameters kv.2].

(** The argument list of [Cmd.template], the entries of the three mappings
    visited in the orders [ks], [ss] and [fls]. *)
Definition template_args (c : Cmd) (chartPath : string) (opts : TemplateOpts)
    (ks ss fls : list (string * string)) : list string :=
  let args := ["template"; chartPath; templateNameArg c; Name opts] in
  let args := if nonempty (Namespace opts)
              then args ++ ["--namespace"; Namespace opts] else args in
  let args := if nonempty (KubeVersion opts) && kubeVersionSupported c
              then args ++ ["--kube-version"; KubeVersion opts] else args in
  let args := foldl (set_flag "--set") args ks in
  let args := foldl (set_flag "--set-string") args ss in
  let args := foldl (set_flag "--set-file") args fls in
  let args := foldl (λ args val, args ++ ["--values"; val]) args (Values opts) in
  let args := foldl (λ args v, args ++ ["--api-versions"; v]) args (APIVersions opts) in
  args.

(** [Cmd.template] *)
Definition template (c : Cmd) (chartPath : string) (opts : TemplateOpts)
  : World → (string * option error) * World :=
  func (
    ks ← call (range (Set_ opts));
    ss ← call (range (SetString opts));
    fls ← call (range (SetFile opts));
    r ← call (run c (template_args c chartPath opts ks ss fls));
    Return r).

(** [Cmd.Close] *)
Definition Close (c : Cmd) (w : World) : World :=
  (RemoveAll (helmHome c) w).2.

End Helm.

(** ** cmd.go: opening a session *)

Section Open.

Context (os : OS).

(** [NewCmdWithVersion]; the pointer it returns is [nil] or a [Cmd]. *)
Definition NewCmdWithVersion (workDir : string) (version : HelmVer)
  : World → (option Cmd * option error) * World :=
  func (
    '(tmpDir, err) ← call (TempDir os "" "helm");
    ifErr err (λ e, Return (None, Some e));;
    Return (Some {| WorkDir := workDir; helmHome := tmpDir; ver := version |},
            err)).

(** Modelled from the spec: [getHelmVersion] is defined outside cmd.go; it
    resolves the version of the installed tool for a working directory
    or fails with an error. *)
Variable getHelmVersion : string → World → (HelmVer + error) * World.

(** [NewCmd] *)
Definition NewCmd (workDir : string)
  : World → (option Cmd * option error) * World :=
  func (
    helmVersion ← call (getHelmVersion workDir);
    match helmVersion with
    | inr err => Return (None, Some err)
    | inl version =>
        r ← call (NewCmdWithVersion workDir version);
        Return r
    end).

End Open.

(** * Vocabulary of the properties *)

(** The tokens of a text are separated by single spaces. *)
Definition space : ascii := " "%char.

Definition space_free (t : string) : Prop := Str.mem space t = false.

(** The text left after a token: nothing, or a space and more text. *)
Definition separated (s : string) : Prop := s = "" ∨ ∃ s', s = String space s'.

(** A token ends in one of the two flags. *)
Definition ends_in_flag (t : string) : bool :=
  Str.has_suffix "--username" t || Str.has_suffix "--password" t.

(** What the redactor does, token by token: the token after one that ends
    in a flag becomes the mask and is not looked at again. *)
Fixpoint mask_tokens (ts : list string) : list string :=
  match ts with
  | t :: ((_ :: rest') as rest) =>
      if ends_in_flag t then t :: "******" :: mask_tokens rest'
      else t :: mask_tokens rest
  | _ => ts
  end.

(** A token is one of the two flags. *)
Definition is_flag (t : string) : bool :=
  String.eqb "--username" t || String.eqb "--password" t.

(** The text after a token of a joined list. *)
Definition after (ts : list string) : string :=
  match ts with
  | [] => ""
  | _ :: _ => String space (Str.join " " ts)
  end.

(** The process that [Cmd.run] launches for [args] in the world [w]. *)
Definition command (c : Cmd) (args : list string) (w : World) : Process := {|
  Path := binaryName c;
  Args := args;
  Dir := WorkDir c;
  Env := environ w ++
    [ "XDG_CACHE_HOME=" +:+ helmHome c +:+ "/cache";
      "XDG_CONFIG_HOME=" +:+ helmHome c +:+ "/config";
      "XDG_DATA_HOME=" +:+ helmHome c +:+ "/data";
      "HELM_HOME=" +:+ helmHome c ] |}.

(** [flag value] when the condition holds, nothing otherwise. *)
Definition flag_if (b : bool) (flag value : string) : list string :=
  if b then [flag; value] else [].

(** The flags for the credentials that are passed on the command line. *)
Definition inline_cred_flags (creds : Creds) : list string :=
  flag_if (nonempty (Username creds)) "--username" (Username creds) ++
  flag_if (nonempty (Password creds)) "--password" (Password creds) ++
  flag_if (nonempty (CAPath creds)) "--ca-file" (CAPath creds).

(** [Cmd.Fetch] from the point where the certificate is looked at, the
    arguments built so far being [args]. *)
Definition Fetch_from (os : OS) (c : Cmd) (repo chartName : string) (creds : Creds)
    (args : list string) : World → (string * option error) * World :=
  func (
    args ← (if nonempty (CertData creds) then
              '(filePath, closer, err) ← call (writeToTmp os (CertData creds));
              ifErr err (λ e, Return ("", Some e));;
              defer (Close_ closer);;
              mret (args ++ ["--cert-file"; filePath])
            else mret args);
    args ← (if nonempty (KeyData creds) then
              '(filePath, closer, err) ← call (writeToTmp os (KeyData creds));
              ifErr err (λ e, Return ("", Some e));;
              defer (Close_ closer);;
              mret (args ++ ["--key-file"; filePath])
            else mret args);
    let args := args ++ ["--repo"; repo; chartName] in
    r ← call (run os c args);
    Return r).

(** The arguments for the entries [kvs] of a [--set] mapping. *)
Definition set_flags (flag : string) (kvs : list (string * string)) : list string :=
  concat (map (λ kv, [flag; kv.1 +:+ "=" +:+ cleanSetParameters kv.2]) kvs).

(** [flag v] for every [v]. *)
Definition each_flag (flag : string) (vals : list string) : list string :=
  concat (map (λ v, [flag; v]) vals).

(** The arguments of [Cmd.template] before the three mappings. *)
Definition template_head (c : Cmd) (chartPath : string) (opts : TemplateOpts)
  : list string :=
  ["template"; chartPath; templateNameArg c; Name opts] ++
  flag_if (nonempty (Namespace opts)) "--namespace" (Namespace opts) ++
  flag_if (nonempty (KubeVersion opts) && kubeVersionSupported c)
    "--kube-version" (KubeVersion opts).

(** The arguments of [Cmd.template] after the three mappings. *)
Definition template_tail (opts : TemplateOpts) : list string :=
  each_flag "--values" (Values opts) ++
  each_flag "--api-versions" (APIVersions opts).

(** [p] is [home/<name>] for a name that is not empty. *)
Definition subdirectory_of (home p : string) : bool :=
  Str.has_prefix (home +:+ "/") p && negb (String.eqb p (home +:+ "/")).

(** The four overrides of [env], after the inherited entries, all point
    into subdirectories of [home]. *)
Definition overrides_in_subdirectories (home : string)
    (inherited env : list string) : Prop :=
  ∃ cache config data hm,
    env = inherited ++
      [ "XDG_CACHE_HOME=" +:+ cache; "XDG_CONFIG_HOME=" +:+ config;
        "XDG_DATA_HOME=" +:+ data; "HELM_HOME=" +:+ hm ] ∧
    subdirectory_of home cache = true ∧ subdirectory_of home config = true ∧
    subdirectory_of home data = true ∧ subdirectory_of home hm = true.

(** A random suffix that differs from those used before. *)
Fixpoint tally (n : nat) : string :=
  match n with
  | O => "0"
  | S n' => String "1" (tally n')
  end.

(** A runtime that visits a map in the order of its keys when its random
    source is even and in the opposite order when it is odd. *)
Definition alternating_order (w : World) (m : gmap string string)
  : list (string * string) :=
  if Nat.even (seed w) then map_to_list m else reverse (map_to_list m).

Definition alternating_order_perm (w : World) (m : gmap string string) :
  alternating_order w m ≡ₚ map_to_list m.
Proof.
  unfold alternating_order. destruct (Nat.even (seed w)); [done|].
  apply reverse_Permutation.
Qed.

(** A system on which nothing fails: the tool prints [ok] and exits with
    code zero. *)
Definition quiet_os : OS := {|
  tempRoot := "/tmp";
  temp_suffix := λ w _ _, Some (tally (length (created w)));
  write_fault := λ _ _ _, None;
  spawn := λ _ w, (fs w, "ok", 0);
  range_order := alternating_order;
  range_order_perm := alternating_order_perm |}.

(** A system on which every write fails after two bytes. *)
Definition full_disk_os : OS := {|
  tempRoot := "/tmp";
  temp_suffix := λ w _ _, Some (tally (length (created w)));
  write_fault := λ _ _ data, Some (String.substring 0 2 data);
  spawn := λ _ w, (fs w, "ok", 0);
  range_order := alternating_order;
  range_order_perm := alternating_order_perm |}.

Definition legacy_profile : HelmVer := {|
  binaryName := "helm2"; initSupported := true; pullCommand := "fetch";
  showCommand := "inspect"; templateNameArg := "--name";
  kubeVersionSupported := false |}.

Definition modern_profile : HelmVer := {|
  binaryName := "helm"; initSupported := false; pullCommand := "pull";
  showCommand := "show"; templateNameArg := "--name-template";
  kubeVersionSupported := true |}.

Definition session (v : HelmVer) : Cmd :=
  {| ver := v; helmHome := "/tmp/helm-home"; WorkDir := "/work" |}.

Definition start : World := {|
  fs := {[ "/tmp" := Directory; "/tmp/helm-home" := Directory ]};
  environ := ["PATH=/usr/bin"];
  seed := 0;
  created := [];
  launched := [] |}.

Definition no_creds : Creds :=
  {| Username := ""; Password := ""; CAPath := ""; CertData := ""; KeyData := "" |}.

Definition client_cert : Creds :=
  {| Username := ""; Password := ""; CAPath := "";
     CertData := "CERT"; KeyData := "KEY" |}.

Definition two_values : TemplateOpts := {|
  Name := "r1"; Namespace := ""; KubeVersion := "1.18"; APIVersions := [];
  Set_ := {[ "a" := "1"; "b" := "2" ]}; SetString := ∅; SetFile := ∅;
  Values := [] |}.

Definition one_value : TemplateOpts := {|
  Name := "r1"; Namespace := ""; KubeVersion := "1.18"; APIVersions := [];
  Set_ := {[ "a" := "x,y" ]}; SetString := ∅; SetFile := ∅;
  Values := [] |}.

(** [strings.Split(s, " ")]: the fields of a text between its spaces. *)
Fixpoint fields (s : string) : list string :=
  match s with
  | EmptyString => [""]
  | String c s' =>
      if Ascii.eqb c space then "" :: fields s'
      else match fields s' with
           | t :: ts => String c t :: ts
           | [] => [String c ""]
           end
  end.

(** The first byte of a string. *)
Definition first_byte (s : string) : option ascii :=
  match s with
  | EmptyString => None
  | String c _ => Some c
  end.

(** The byte [d] is a comma and the byte [c] before it is no backslash:
    what the expression of [cleanSetParameters] matches. *)
Definition plain_then_comma (c d : ascii) : bool :=
  negb (Ascii.eqb c backslash) && Ascii.eqb d comma.

(** Somewhere in [s] a comma follows a byte that is not a backslash. *)
Fixpoint unescaped_comma (s : string) : bool :=
  match s with
  | EmptyString => false
  | String c s' =>
      match s' with
      | EmptyString => false
      | String d _ => plain_then_comma c d || unescaped_comma s'
      end
  end.

(** Somewhere in [s] a comma follows a byte that is neither a backslash
    nor a comma. *)
Fixpoint comma_after_plain (s : string) : bool :=
  match s with
  | EmptyString => false
  | String c s' =>
      match s' with
      | EmptyString => false
      | String d _ =>
          (plain_then_comma c d && negb (Ascii.eqb c comma))
          || comma_after_plain s'
      end
  end.

(** The text without the backslashes that stand in front of a comma. *)
Fixpoint unescape (s : string) : string :=
  match s with
  | EmptyString => EmptyString
  | String c s' =>
      match s' with
      | EmptyString => String c EmptyString
      | String d _ =>
          if Ascii.eqb c backslash && Ascii.eqb d comma then unescape s'
          else String c (unescape s')
      end
  end.

(** [RemoveAll path] when the condition holds. *)
Definition remove_if (b : bool) (path : string) (w : World) : World :=
  if b then (RemoveAll path w).2 else w.

(** The step of [Cmd.RepoAdd] that passes a secret through a file: when
    [data] is given, a new temporary file receives it and [flag] and the
    name of the file are added to the arguments. *)
Definition secret_arg (os : OS) (data flag : string) (args : list string)
  : Go (string * option error) (list string) :=
  if nonempty data then
    '(file, err) ← call (TempFile os "" "helm");
    ifErr err (λ e, Return ("", Some e));;
    err ← call (Write os file data);
    ifErr err (λ e, Return ("", Some e));;
    mret (args ++ [flag; file])
  else mret args.

(** [Cmd.RepoAdd] from the point where the certificate is looked at, the
    directory made and its removal deferred, the arguments built so far
    being [args]. *)
Definition RepoAdd_from (os : OS) (c : Cmd) (name url : string) (opts : Creds)
    (args : list string) : Go (string * option error) (string * option error) :=
  args ← secret_arg os (CertData opts) "--cert-file" args;
  args ← secret_arg os (KeyData opts) "--key-file" args;
  r ← call (run os c (args ++ [name; url]));
  Return r.

(** The world [w'] has at most one more child process than [w], launched
    by the session [c] in the environment of [w]. *)
Definition launches_at_most_once (c : Cmd) (w w' : World) : Prop :=
  launched w' = launched w ∨
  ∃ args, launched w' = launched w ++ [command c args w].

(** Somewhere in [s] a comma has no backslash before it: the first byte
    is a comma, or a comma follows a byte that is not a backslash. *)
Definition bare_comma (s : string) : bool :=
  match s with
  | String c _ => Ascii.eqb c comma
  | EmptyString => false
  end || unescaped_comma s.

(** The error, if any, that stops [Cmd.Fetch] before it calls [run]: that
    of [writeToTmp] for the certificate, when there is one; else that of
    [writeToTmp] for the key, when there is one, in the world that the
    first call has left. *)
Definition Fetch_preparation (os : OS) (creds : Creds) (w : World) : option error :=
  let w1 := if nonempty (CertData creds)
            then (writeToTmp os (CertData creds) w).2 else w in
  match (if nonempty (CertData creds)
         then (writeToTmp os (CertData creds) w).1.2 else None) with
  | Some e => Some e
  | None => if nonempty (KeyData creds)
            then (writeToTmp os (KeyData creds) w1).1.2 else None
  end.

(** What the step [secret_arg] of [Cmd.RepoAdd] does for [data]: the
    error, if any, of making the temporary file and of the write, and the
    world it leaves. *)
Definition secret_file (os : OS) (data : string) (w : World) : option error * World :=
  if nonempty data then
    match TempFile os "" "helm" w with
    | ((_, Some e), w1) => (Some e, w1)
    | ((file, None), w1) => Write os file data w1
    end
  else (None, w).

(** The error, if any, that stops [Cmd.RepoAdd] between the making of its
    directory and the call of [run]: that of the file for the
    certificate, else that of the file for the key, [w] being the world
    in which the directory has been made. *)
Definition RepoAdd_preparation (os : OS) (opts : Creds) (w : World) : option error :=
  match secret_file os (CertData opts) w with
  | (Some e, _) => Some e
  | (None, w1) => (secret_file os (KeyData opts) w1).1
  end.

(** * Properties *)

(* The comparison of two bytes is kept folded: the proofs rewrite with
   what is known about it. *)
#[local] Arguments Ascii.eqb : simpl never.

(** ** Strings *)

Lemma append_assoc (a b c : string) : (a +:+ b) +:+ c = a +:+ b +:+ c.
Proof. induction a as [|x a IH]; simpl; [done | by rewrite IH]. Qed.

Lemma append_nil_r (a : string) : a +:+ "" = a.
Proof. induction a as [|x a IH]; simpl; [done | by rewrite IH]. Qed.

Lemma length_append (a b : string) :
  String.length (a +:+ b) = String.length a + String.length b.
Proof. induction a as [|x a IH]; simpl; [done | by rewrite IH]. Qed.

Lemma mem_append (c : ascii) (a b : string) :
  Str.mem c (a +:+ b) = Str.mem c a || Str.mem c b.
Proof.
  induction a as [|x a IH]; simpl; [done|].
  rewrite IH. by rewrite orb_assoc.
Qed.

(** Two strings of which only one holds the byte [c] differ. *)
Lemma mem_differ (c : ascii) (a b : string) :
  Str.mem c a = true → Str.mem c b = false → a ≠ b.
Proof. intros Ha Hb ->. congruence. Qed.

(** ** ReplaceAllString *)

Section ReplaceAll.

Variable m : Regexp.matcher.
Hypothesis m_progressive : Regexp.progressive m.

Lemma replace_all_fuel (n1 n2 : nat) (s : string) :
  String.length s < n1 → String.length s < n2 →
  Regexp.replace_all m n1 s = Regexp.replace_all m n2 s.
Proof.
  revert n2 s. induction n1 as [|n1 IH]; intros n2 s H1 H2; [lia|].
  destruct n2 as [|n2]; [lia|]. simpl.
  destruct (m s) as [[out rest]|] eqn:Hm.
  - apply m_progressive in Hm. f_equal. apply IH; lia.
  - destruct s as [|c s']; [done|]. simpl in *. f_equal. apply IH; lia.
Qed.

Lemma ReplaceAllString_match (s out rest : string) :
  m s = Some (out, rest) →
  Regexp.ReplaceAllString m s = out +:+ Regexp.ReplaceAllString m rest.
Proof.
  intros Hm. unfold Regexp.ReplaceAllString at 1. simpl. rewrite Hm.
  f_equal. pose proof (m_progressive _ _ _ Hm).
  apply replace_all_fuel; lia.
Qed.

Lemma ReplaceAllString_copy (c : ascii) (s : string) :
  m (String c s) = None →
  Regexp.ReplaceAllString m (String c s)
  = String c (Regexp.ReplaceAllString m s).
Proof.
  intros Hm. unfold Regexp.ReplaceAllString at 1.
  change (Regexp.replace_all m (S (String.length (String c s))) (String c s))
    with (match m (String c s) with
          | Some (out, rest) =>
              out +:+ Regexp.replace_all m (String.length (String c s)) rest
          | None => String c (Regexp.replace_all m (String.length (String c s)) s)
          end).
  rewrite Hm. done.
Qed.

Lemma ReplaceAllString_empty : Regexp.ReplaceAllString m "" = "".
Proof.
  unfold Regexp.ReplaceAllString. simpl.
  destruct (m "") as [[out rest]|] eqn:Hm; [|done].
  apply m_progressive in Hm. simpl in Hm. lia.
Qed.

End ReplaceAll.

(** ** cleanSetParameters *)

Lemma clean_match_progressive : Regexp.progressive clean_match.
Proof.
  intros s out rest. unfold clean_match.
  destruct s as [|c [|d s']]; try done.
  destruct (_ && _); [|done]. intros [= <- <-]. simpl. lia.
Qed.

Lemma clean_match_second (c d : ascii) (s : string) :
  d ≠ comma → clean_match (String c (String d s)) = None.
Proof.
  intros Hd. simpl. apply Ascii.eqb_neq in Hd. rewrite Hd.
  by rewrite andb_false_r.
Qed.

Lemma clean_copy (c : ascii) (s : string) :
  clean_match (String c s) = None →
  cleanSetParameters (String c s) = String c (cleanSetParameters s).
Proof. apply ReplaceAllString_copy. Qed.

Lemma clean_escape (c : ascii) (s : string) :
  c ≠ backslash →
  cleanSetParameters (String c (String comma s))
  = String c (String backslash (String comma (cleanSetParameters s))).
Proof.
  intros Hc. unfold cleanSetParameters.
  erewrite ReplaceAllString_match; [| apply clean_match_progressive |].
  2:{ simpl. apply Ascii.eqb_neq in Hc. rewrite Hc. simpl. reflexivity. }
  done.
Qed.

(** A value without a comma is left as it is, and so is what follows it
    when that does not start with a comma. *)
Lemma clean_app_no_comma (a t : string) :
  Str.mem comma a = false →
  (∀ t', t ≠ String comma t') →
  cleanSetParameters (a +:+ t) = a +:+ cleanSetParameters t.
Proof.
  intros Ha Ht. induction a as [|c a IH]; [done|].
  simpl in Ha. apply orb_false_iff in Ha as [Hc Ha].
  simpl. rewrite clean_copy; [by rewrite IH|].
  destruct a as [|d a'].
  - simpl. destruct t as [|d t']; [done|].
    apply clean_match_second. intros ->. by eapply Ht.
  - apply clean_match_second. simpl in Ha.
    apply orb_false_iff in Ha as [Hd _]. by apply Ascii.eqb_neq in Hd.
Qed.

Lemma clean_no_comma (a : string) :
  Str.mem comma a = false → cleanSetParameters a = a.
Proof.
  intros Ha. rewrite <- (append_nil_r a) at 1.
  rewrite clean_app_no_comma; [| done | done].
  unfold cleanSetParameters.
  rewrite ReplaceAllString_empty; [| apply clean_match_progressive].
  apply append_nil_r.
Qed.

(** An escaped comma, followed by a value without a comma. *)
Lemma clean_escaped_tail (b : string) :
  Str.mem comma b = false →
  cleanSetParameters (String backslash (String comma b))
  = String backslash (String comma b).
Proof.
  intros Hb. rewrite clean_copy.
  2:{ unfold clean_match. destruct (String comma b); [done|].
      by rewrite Ascii.eqb_refl. }
  f_equal. destruct b as [|d b'].
  - reflexivity.
  - rewrite clean_copy.
    + f_equal. by apply clean_no_comma.
    + apply clean_match_second. simpl in Hb.
      apply orb_false_iff in Hb as [Hd _]. by apply Ascii.eqb_neq in Hd.
Qed.

(** C3 (the code at the failing inputs): a comma that is the first byte
    of the value gets no backslash, and neither does the second of two
    commas in a row, although no backslash precedes them. *)
Theorem cleanSetParameters_misses_commas :
  cleanSetParameters ",b" = ",b" ∧
  cleanSetParameters "a,,b" = "a\,,b" ∧
  cleanSetParameters ",," = ",\,".
Proof. repeat split; reflexivity. Qed.

(** C9 (the code at the failing inputs): on [a,b] the result is the
    escaped form [a\,b], and on the escaped [a\,b] a second application
    returns what the first returned; but a value can hold a comma without
    a backslash before it and keep it: the comma that is the first byte of
    [,b] and the second comma of [a,,b] are still bare in the result, and
    a second application to [a,,b] does not return what the first
    returned. *)
Theorem cleanSetParameters_leaves_bare_comma :
  cleanSetParameters "a,b" = "a\,b" ∧
  cleanSetParameters (cleanSetParameters "a\,b") = cleanSetParameters "a\,b" ∧
  bare_comma ",b" = true ∧
  bare_comma (cleanSetParameters ",b") = true ∧
  bare_comma "a,,b" = true ∧
  bare_comma (cleanSetParameters "a,,b") = true ∧
  cleanSetParameters (cleanSetParameters "a,,b") = "a\,\,b" ∧
  cleanSetParameters (cleanSetParameters "a,,b") ≠ cleanSetParameters "a,,b".
Proof. repeat split; try reflexivity. discriminate. Qed.


Example cleanSetParameters_a_b :
  cleanSetParameters "a,b" = "a\,b" ∧
  cleanSetParameters "a\,b" = "a\,b" ∧
  cleanSetParameters (cleanSetParameters "a,b") = cleanSetParameters "a,b".
Proof. repeat split; reflexivity. Qed.

(** ** The redactor *)

Lemma has_prefix_true (p s : string) :
  Str.has_prefix p s = true ↔ ∃ r, s = p +:+ r.
Proof.
  revert s. induction p as [|a p IH]; intros s; simpl.
  - split; [eauto | done].
  - destruct s as [|b s].
    + split; [done | by intros [r [=]]].
    + rewrite andb_true_iff, Ascii.eqb_eq, IH. split.
      * intros [-> [r ->]]. eauto.
      * intros [r [= -> ->]]. eauto.
Qed.

Lemma redact_match_progressive : Regexp.progressive redact_match.
Proof.
  assert (Hskip : ∀ s, String.length (skip_value s) ≤ String.length s).
  { induction s as [|c s IH]; simpl; [lia|]. destruct (Ascii.eqb c " "); simpl; lia. }
  intros s out rest. unfold redact_match.
  destruct (Str.has_prefix "--username " s) eqn:H1.
  - intros [= <- <-]. apply has_prefix_true in H1 as [r ->].
    pose proof (Hskip r). simpl. lia.
  - destruct (Str.has_prefix "--password " s) eqn:H2; [|done].
    intros [= <- <-]. apply has_prefix_true in H2 as [r ->].
    pose proof (Hskip r). simpl. lia.
Qed.

(** A flag and a space are at the head of [t ++ s] only when the token
    [t] is the flag. *)
Lemma flag_prefix_token (f t s : string) :
  space_free f → space_free t → separated s →
  Str.has_prefix (f +:+ String space "") (t +:+ s)
  = String.eqb f t && nonempty s.
Proof.
  unfold space_free. revert t.
  induction f as [|a f IH]; intros t Hf Ht Hs.
  - destruct t as [|b t].
    + destruct Hs as [-> | [s' ->]]; reflexivity.
    + simpl in Ht. apply orb_false_iff in Ht as [Hb _].
      cbn. rewrite Ascii.eqb_sym, Hb. reflexivity.
  - simpl in Hf. apply orb_false_iff in Hf as [Ha Hf].
    destruct t as [|b t].
    + destruct Hs as [-> | [s' ->]]; [reflexivity|].
      cbn. rewrite Ha. reflexivity.
    + simpl in Ht. apply orb_false_iff in Ht as [_ Ht].
      cbn. rewrite (IH t Hf Ht Hs). by rewrite andb_assoc.
Qed.

Lemma redact_match_token (t s : string) :
  space_free t → separated s →
  redact_match (t +:+ s) =
    if is_flag t && nonempty s
    then Some (t +:+ " ******", skip_value (Str.drop 1 s))
    else None.
Proof.
  intros Ht Hs. unfold redact_match, is_flag.
  change "--username " with ("--username" +:+ String space "").
  change "--password " with ("--password" +:+ String space "").
  rewrite !flag_prefix_token by done.
  destruct (String.eqb "--username" t) eqn:E1.
  - apply String.eqb_eq in E1 as <-.
    destruct (nonempty s); reflexivity.
  - destruct (String.eqb "--password" t) eqn:E2; [|reflexivity].
    apply String.eqb_eq in E2 as <-.
    destruct (nonempty s); reflexivity.
Qed.

Lemma has_suffix_cons (f : string) (c : ascii) (t : string) :
  Str.has_suffix f (String c t)
  = String.eqb f (String c t) || Str.has_suffix f t.
Proof. reflexivity. Qed.

Lemma ends_in_flag_cons (c : ascii) (t : string) :
  ends_in_flag (String c t) = is_flag (String c t) || ends_in_flag t.
Proof.
  unfold ends_in_flag, is_flag. rewrite !has_suffix_cons.
  generalize (String.eqb "--username" (String c t)),
    (String.eqb "--password" (String c t)),
    (Str.has_suffix "--username" t), (Str.has_suffix "--password" t).
  by intros [] [] [] [].
Qed.

Lemma redactor_copy (c : ascii) (s : string) :
  redact_match (String c s) = None →
  redactor (String c s) = String c (redactor s).
Proof. apply ReplaceAllString_copy. Qed.

Lemma redactor_match (s out rest : string) :
  redact_match s = Some (out, rest) →
  redactor s = out +:+ redactor rest.
Proof. apply ReplaceAllString_match, redact_match_progressive. Qed.

Lemma redactor_empty : redactor "" = "".
Proof. apply ReplaceAllString_empty, redact_match_progressive. Qed.

(** The scan of one token [t] and of the text [s] after it. *)
Lemma redactor_token (t s : string) :
  space_free t → separated s →
  redactor (t +:+ s) =
    t +:+ (if ends_in_flag t && nonempty s
           then " ******" +:+ redactor (skip_value (Str.drop 1 s))
           else redactor s).
Proof.
  intros Ht Hs. induction t as [|c t IH].
  - reflexivity.
  - pose proof Ht as Ht'. unfold space_free in Ht'. simpl in Ht'.
    apply orb_false_iff in Ht' as [_ Ht'].
    pose proof (redact_match_token (String c t) s Ht Hs) as Hm.
    rewrite ends_in_flag_cons.
    destruct (is_flag (String c t) && nonempty s) eqn:E.
    + apply andb_true_iff in E as [E1 E2]. rewrite E1, E2. simpl orb. simpl andb.
      rewrite (redactor_match _ _ _ Hm). by rewrite append_assoc.
    + change (String c t +:+ s) with (String c (t +:+ s)) in *.
      rewrite (redactor_copy _ _ Hm), (IH Ht').
      change (String c t +:+ ?x) with (String c (t +:+ x)). f_equal. f_equal.
      destruct (is_flag (String c t)); [|reflexivity].
      simpl in E. rewrite E. by rewrite !andb_false_r.
Qed.

Lemma join_cons (t : string) (ts : list string) :
  Str.join " " (t :: ts) = t +:+ after ts.
Proof. destruct ts; simpl; [by rewrite append_nil_r | done]. Qed.

Lemma after_separated (ts : list string) : separated (after ts).
Proof. destruct ts; [by left | right; eauto]. Qed.

Lemma skip_value_token (v s : string) :
  space_free v → separated s → skip_value (v +:+ s) = s.
Proof.
  unfold space_free. intros Hv Hs. induction v as [|c v IH].
  - destruct Hs as [-> | [s' ->]]; reflexivity.
  - simpl in Hv. apply orb_false_iff in Hv as [Hc Hv].
    simpl. unfold space in Hc. rewrite Hc. by apply IH.
Qed.

Lemma redactor_after (ts : list string) :
  redactor (after ts) = match ts with
                        | [] => ""
                        | _ :: _ => String space (redactor (Str.join " " ts))
                        end.
Proof.
  destruct ts as [|t ts]; [apply redactor_empty|].
  unfold after. by rewrite redactor_copy.
Qed.

Lemma mask_tokens_nil (ts : list string) : mask_tokens ts = [] → ts = [].
Proof.
  destruct ts as [|t [|v rest]]; [done | done |].
  simpl. by destruct (ends_in_flag t).
Qed.

Lemma after_mask_cons (t : string) (ts : list string) :
  Str.join " " (t :: mask_tokens ts)
  = t +:+ match ts with
          | [] => ""
          | _ :: _ => String space (Str.join " " (mask_tokens ts))
          end.
Proof.
  rewrite join_cons. destruct ts as [|v rest]; [done|].
  destruct (mask_tokens (v :: rest)) eqn:E; [|done].
  by apply mask_tokens_nil in E.
Qed.

(** The redactor on a text of tokens separated by single spaces. *)
Lemma redactor_tokens (ts : list string) :
  Forall space_free ts →
  redactor (Str.join " " ts) = Str.join " " (mask_tokens ts).
Proof.
  remember (length ts) as n eqn:Hn.
  revert ts Hn. induction n as [n IH] using lt_wf_ind. intros ts Hn Hts.
  destruct ts as [|t [|v rest]].
  - apply redactor_empty.
  - apply Forall_cons in Hts as [Ht _]. simpl.
    rewrite <- (append_nil_r t) at 1.
    rewrite redactor_token by (done || by left).
    rewrite andb_false_r, redactor_empty. apply append_nil_r.
  - apply Forall_cons in Hts as [Ht Hts].
    pose proof Hts as Hts'. apply Forall_cons in Hts' as [Hv Hrest].
    rewrite join_cons, redactor_token by (done || apply after_separated).
    change (nonempty (after (v :: rest))) with true. rewrite andb_true_r.
    change (mask_tokens (t :: v :: rest))
      with (if ends_in_flag t then t :: "******" :: mask_tokens rest
            else t :: mask_tokens (v :: rest)).
    destruct (ends_in_flag t).
    + change (Str.drop 1 (after (v :: rest))) with (Str.join " " (v :: rest)).
      rewrite join_cons, skip_value_token by (done || apply after_separated).
      rewrite redactor_after, join_cons. cbn [after]. rewrite after_mask_cons.
      destruct rest as [|r rest']; [reflexivity|].
      rewrite (IH (length (r :: rest'))); [reflexivity | | done | done].
      subst n. simpl. lia.
    + rewrite redactor_after, after_mask_cons.
      rewrite (IH (length (v :: rest))); [reflexivity | | done | done].
      subst n. simpl. lia.
Qed.

Lemma mask_tokens_plain (t : string) (ts : list string) :
  ends_in_flag t = false → mask_tokens (t :: ts) = t :: mask_tokens ts.
Proof. intros Ht. destruct ts as [|v rest]; [done|]. simpl. by rewrite Ht. Qed.



Lemma mask_tokens_flag (t v : string) (rest : list string) :
  ends_in_flag t = true →
  mask_tokens (t :: v :: rest) = t :: "******" :: mask_tokens rest.
Proof. intros Ht. simpl. by rewrite Ht. Qed.

(** Induction over a list of tokens the way the redactor goes through
    it: one token when it does not end in a flag, two when it does. *)
Lemma tokens_ind (P : list string → Prop) :
  P [] →
  (∀ t, P [t]) →
  (∀ t v rest, ends_in_flag t = true → P rest → P (t :: v :: rest)) →
  (∀ t v rest, ends_in_flag t = false → P (v :: rest) → P (t :: v :: rest)) →
  ∀ ts, P ts.
Proof.
  intros Hnil Hone Hflag Hplain ts.
  remember (length ts) as n eqn:Hn. revert ts Hn.
  induction n as [n IH] using lt_wf_ind. intros ts ->.
  destruct ts as [|t [|v rest]]; [done | done |].
  destruct (ends_in_flag t) eqn:E.
  - apply Hflag; [done|]. apply (IH (length rest)); [simpl; lia | done].
  - apply Hplain; [done|]. apply (IH (length (v :: rest))); [simpl; lia | done].
Qed.


Lemma mask_tokens_length (ts : list string) :
  length (mask_tokens ts) = length ts.
Proof.
  induction ts as [| t | t v rest Ht IH | t v rest Ht IH] using tokens_ind;
    try done.
  - rewrite mask_tokens_flag by done. cbn [length]. by rewrite IH.
  - rewrite mask_tokens_plain by done. cbn [length]. by rewrite IH.
Qed.





(** ** The file system *)

Lemma below_refl (path : string) : below path path = true.
Proof. unfold below. by rewrite String.eqb_refl. Qed.

Lemma RemoveAll_err (path : string) (w : World) : (RemoveAll path w).1 = None.
Proof. unfold RemoveAll. by destruct (String.eqb path ""). Qed.

Lemma RemoveAll_lookup_below (path p : string) (w : World) :
  path ≠ "" → below path p = true → fs (RemoveAll path w).2 !! p = None.
Proof.
  intros Hne Hb. unfold RemoveAll.
  apply String.eqb_neq in Hne. rewrite Hne. simpl.
  apply map_lookup_filter_None. right. intros x _. simpl. congruence.
Qed.

Lemma RemoveAll_lookup_other (path p : string) (w : World) :
  below path p = false → fs (RemoveAll path w).2 !! p = fs w !! p.
Proof.
  intros Hb. unfold RemoveAll. destruct (String.eqb path ""); [done|]. simpl.
  destruct (fs w !! p) as [x|] eqn:E.
  - by apply map_lookup_filter_Some.
  - apply map_lookup_filter_None. by left.
Qed.

Lemma RemoveAll_lookup_None (path p : string) (w : World) :
  fs w !! p = None → fs (RemoveAll path w).2 !! p = None.
Proof.
  intros E. unfold RemoveAll. destruct (String.eqb path ""); [done|]. simpl.
  apply map_lookup_filter_None. by left.
Qed.

Lemma RemoveAll_rest (path : string) (w : World) :
  environ (RemoveAll path w).2 = environ w ∧
  seed (RemoveAll path w).2 = seed w ∧
  created (RemoveAll path w).2 = created w ∧
  launched (RemoveAll path w).2 = launched w.
Proof. unfold RemoveAll. by destruct (String.eqb path ""). Qed.

Lemma set_fs_id (w : World) : set_fs (fs w) w = w.
Proof. by destruct w. Qed.

(** Nothing at or below [path]: [RemoveAll] changes nothing. *)
Lemma RemoveAll_absent (path : string) (w : World) :
  (∀ p, below path p = true → fs w !! p = None) → (RemoveAll path w).2 = w.
Proof.
  intros Habs. unfold RemoveAll. destruct (String.eqb path ""); [done|]. simpl.
  destruct w as [f e sd cr la]. unfold set_fs. simpl in *. f_equal.
  apply map_filter_id. intros p x Hp. simpl.
  destruct (below path p) eqn:Hb; [|done].
  rewrite (Habs p Hb) in Hp. done.
Qed.

Lemma RemoveAll_idemp (path : string) (w : World) :
  (RemoveAll path (RemoveAll path w).2).2 = (RemoveAll path w).2.
Proof.
  destruct (decide (path = "")) as [-> | Hne]; [done|].
  apply RemoveAll_absent. intros p Hb. by apply RemoveAll_lookup_below.
Qed.

(** ** Cmd.run *)

Section Run.

Context (os : OS).

Lemma run_launched (c : Cmd) (args : list string) (w : World) :
  launched (run os c args w).2 = launched w ++ [command c args w].
Proof.
  unfold run, RunWithRedactor. fold (command c args w).
  destruct (spawn os (command c args w) w) as [[fs' out] [|code]]; done.
Qed.

Lemma run_rest (c : Cmd) (args : list string) (w : World) :
  environ (run os c args w).2 = environ w ∧
  seed (run os c args w).2 = seed w ∧
  created (run os c args w).2 = created w.
Proof.
  unfold run, RunWithRedactor. fold (command c args w).
  destruct (spawn os (command c args w) w) as [[fs' out] [|code]]; done.
Qed.

Lemma run_success (c : Cmd) (args : list string) (w : World)
    (fs' : gmap string node) (out : string) :
  spawn os (command c args w) w = (fs', out, 0) →
  (run os c args w).1 = (redactor out, None).
Proof.
  intros E. unfold run, RunWithRedactor. fold (command c args w). by rewrite E.
Qed.

End Run.

(** ** Temporary files *)

#[local] Arguments RemoveAll : simpl never.
#[local] Arguments run : simpl never.

Ltac go_unfold :=
  unfold func, mbind, go_bind, mret, go_ret, call, defer, ifErr, Return.

Section Temp.

Context (os : OS).

Lemma temp_name_slash (dir pattern r : string) :
  Str.mem "/" (temp_dir_of os dir +:+ "/" +:+ pattern +:+ r) = true.
Proof. rewrite mem_append. simpl. by rewrite orb_true_r. Qed.

(** A temporary entry is made or the call fails and changes nothing; the
    name of a new entry holds a slash and was free. *)
Lemma create_temp_cases (n : node) (op dir pattern : string) (w : World) :
  (∃ e, create_temp os n op dir pattern w = (("", Some e), w)) ∨
  (∃ name, Str.mem "/" name = true ∧ fs w !! name = None ∧
     create_temp os n op dir pattern w =
       ((name, None),
        {| fs := <[name := n]> (fs w); environ := environ w; seed := seed w;
           created := created w ++ [name]; launched := launched w |})).
Proof.
  unfold create_temp. destruct (temp_suffix os w dir pattern) as [r|]; [|eauto].
  destruct (fs w !! _) eqn:E; [eauto|].
  right. eexists. split; [apply temp_name_slash|]. split; [exact E | done].
Qed.

Lemma slash_nonempty (name : string) : Str.mem "/" name = true → name ≠ "".
Proof. by intros H ->. Qed.

(** C10: when [writeToTmp] has made its temporary file [name] and the
    write of the secret bytes fails, it returns the error with an empty
    name and no closer, and the file is gone: nothing is left at [name],
    whatever the failed write had put there, and the paths that are not
    at or below [name] are as they were. *)
Theorem writeToTmp_write_failure (data name part : string) (w w1 : World) :
  TempFile os "" "" w = ((name, None), w1) →
  write_fault os w1 name data = Some part →
  (writeToTmp os data w).1 = ("", None, Some (PathError "write" name)) ∧
  fs (writeToTmp os data w).2 !! name = None ∧
  (∀ q, below name q = false →
     fs (writeToTmp os data w).2 !! q = fs w !! q).
Proof.
  intros Ht Hw.
  destruct (create_temp_cases (Regular "") "open" "" "" w)
    as [[e He] | (name' & Hslash & Hfree & He)];
    unfold TempFile in Ht; rewrite He in Ht; [done|].
  injection Ht as <- <-.
  assert (Hne : name' ≠ "") by by apply slash_nonempty.
  unfold writeToTmp, TempFile. go_unfold. simpl. rewrite He. simpl.
  unfold WriteFile. rewrite Hw. simpl.
  destruct (RemoveAll name' _) as [r w2] eqn:Er. simpl.
  assert (Hw2 : w2 = (RemoveAll name' (set_fs
      (<[name':=Regular part]> (<[name':=Regular ""]> (fs w)))
      {| fs := <[name':=Regular ""]> (fs w); environ := environ w;
         seed := seed w; created := created w ++ [name'];
         launched := launched w |})).2) by by rewrite Er.
  split; [done|]. rewrite Hw2. split.
  - apply RemoveAll_lookup_below; [done | apply below_refl].
  - intros q Hq. rewrite RemoveAll_lookup_other by done. simpl.
    assert (name' ≠ q) by (intros ->; by rewrite below_refl in Hq).
    by rewrite !lookup_insert_ne.
Qed.

(** What [writeToTmp] does in all cases: it launches nothing; either it
    fails, with no closer, and what it has created is gone, or it
    returns the name of the one file it created, with the closer that
    removes it. *)
Lemma writeToTmp_cases (data : string) (w : World) :
  (launched (writeToTmp os data w).2 = launched w ∧
   environ (writeToTmp os data w).2 = environ w) ∧
  ((∃ e new, (writeToTmp os data w).1 = ("", None, Some e) ∧
      created (writeToTmp os data w).2 = created w ++ new ∧
      (∀ p, fs w !! p = None → fs (writeToTmp os data w).2 !! p = None) ∧
      ∀ p, p ∈ new → fs (writeToTmp os data w).2 !! p = None) ∨
   (∃ name, Str.mem "/" name = true ∧
      (writeToTmp os data w).1
        = (name, Some (NewCloser (RemoveAll name)), None) ∧
      created (writeToTmp os data w).2 = created w ++ [name])).
Proof.
  destruct (create_temp_cases (Regular "") "open" "" "" w)
    as [[e He] | (name & Hslash & Hfree & He)].
  - unfold writeToTmp, TempFile. go_unfold. simpl. rewrite He. simpl.
    split; [done|]. left. exists e, []. rewrite app_nil_r.
    repeat split; [done|]. intros p Hp. by apply elem_of_nil in Hp.
  - assert (Hne : name ≠ "") by by apply slash_nonempty.
    unfold writeToTmp, TempFile. go_unfold. simpl. rewrite He. simpl.
    unfold WriteFile. destruct (write_fault os _ name data) as [part|]; simpl.
    + destruct (RemoveAll name _) as [r w2] eqn:Er. simpl.
      match type of Er with RemoveAll _ ?w0 = _ =>
        assert (Hw2 : w2 = (RemoveAll name w0).2) by by rewrite Er end.
      rewrite Hw2.
      destruct (RemoveAll_rest name (set_fs
        (<[name:=Regular part]> (<[name:=Regular ""]> (fs w)))
        {| fs := <[name:=Regular ""]> (fs w); environ := environ w;
           seed := seed w; created := created w ++ [name];
           launched := launched w |})) as (He' & _ & Hc & Hl).
      split; [by rewrite Hl, He'|]. left. eexists _, [name].
      split; [done|]. split; [by rewrite Hc|]. split.
      * intros p Hp. destruct (below name p) eqn:Hb.
        -- by apply RemoveAll_lookup_below.
        -- rewrite RemoveAll_lookup_other by done. simpl.
           assert (name ≠ p) by (intros ->; by rewrite below_refl in Hb).
           by rewrite !lookup_insert_ne.
      * intros p ->%list_elem_of_singleton.
        apply RemoveAll_lookup_below; [done | apply below_refl].
    + split; [done|]. right. exists name. done.
Qed.

End Temp.

(** ** Cmd.Fetch *)

Section Fetch.

Context (os : OS).

Lemma Fetch_eq (c : Cmd) (repo chartName version destination : string)
    (creds : Creds) :
  Fetch os c repo chartName version destination creds
  = Fetch_from os c repo chartName creds
      ([pullCommand c; "--destination"; destination] ++
       flag_if (nonempty version) "--version" version ++
       inline_cred_flags creds).
Proof.
  unfold Fetch, Fetch_from, inline_cred_flags, flag_if.
  destruct (nonempty version), (nonempty (Username creds)),
    (nonempty (Password creds)), (nonempty (CAPath creds)); reflexivity.
Qed.

Lemma command_environ (c : Cmd) (args : list string) (w w' : World) :
  environ w' = environ w → command c args w' = command c args w.
Proof. intros E. unfold command. by rewrite E. Qed.

(** Every path of [Fetch]: what it has created is gone when it returns;
    it fails before launching anything, or launches the tool once, with
    the flags for the files it wrote between the arguments built before
    and the trailing positionals. *)
Lemma Fetch_from_cases (c : Cmd) (repo chartName : string) (creds : Creds)
    (args : list string) (w : World) :
  ∃ new,
    created (Fetch_from os c repo chartName creds args w).2 = created w ++ new ∧
    (∀ p, p ∈ new →
       fs (Fetch_from os c repo chartName creds args w).2 !! p = None) ∧
    ((launched (Fetch_from os c repo chartName creds args w).2 = launched w ∧
      ∃ e, (Fetch_from os c repo chartName creds args w).1 = ("", Some e)) ∨
     ∃ certPath keyPath,
       Str.mem "/" certPath = true ∧ Str.mem "/" keyPath = true ∧
       launched (Fetch_from os c repo chartName creds args w).2
       = launched w ++
         [command c
            (args ++
             flag_if (nonempty (CertData creds)) "--cert-file" certPath ++
             flag_if (nonempty (KeyData creds)) "--key-file" keyPath ++
             ["--repo"; repo; chartName]) w]).
Proof.
  unfold Fetch_from. go_unfold.
  destruct (nonempty (CertData creds)) eqn:Ec; simpl.
  - destruct (writeToTmp_cases os (CertData creds) w)
      as [[Hl1 He1] [(e & new & Hr & Hc & _ & Hgone) | (cert & Hslash & Hr & Hc)]];
      destruct (writeToTmp os (CertData creds) w) as [[[f1 cl1] err1] w1];
      simpl in *; injection Hr as -> -> ->; simpl.
    { exists new. split; [done|]. split; [done|]. left. eauto. }
    assert (Hcne : cert ≠ "") by by apply slash_nonempty.
    destruct (nonempty (KeyData creds)) eqn:Ek; simpl.
    + destruct (writeToTmp_cases os (KeyData creds) w1)
        as [[Hl2 He2] [(e & new & Hr & Hc2 & Hkeep & Hgone) | (key & Hslash2 & Hr & Hc2)]];
        destruct (writeToTmp os (KeyData creds) w1) as [[[f2 cl2] err2] w2];
        simpl in *; injection Hr as -> -> ->; simpl.
      { unfold NewCloser.
        destruct (RemoveAll_rest cert w2) as (_ & _ & Hcr & Hla).
        exists ([cert] ++ new). rewrite Hcr, Hc2, Hc, <- app_assoc.
        split; [done|]. split.
        - intros p [->%list_elem_of_singleton | Hp]%elem_of_app.
          + apply RemoveAll_lookup_below; [done | apply below_refl].
          + apply RemoveAll_lookup_None. by apply Hgone.
        - left. rewrite Hla, Hl2, Hl1. eauto. }
      assert (Hkne : key ≠ "") by by apply slash_nonempty.
      destruct (run os c _ w2) as [r w3] eqn:Er. simpl. unfold NewCloser.
      match type of Er with run _ _ ?a _ = _ =>
        pose proof (run_launched os c a w2) as Hrl;
        pose proof (run_rest os c a w2) as (_ & _ & Hrc) end.
      rewrite Er in Hrl, Hrc. simpl in Hrl, Hrc.
      destruct (RemoveAll_rest key w3) as (_ & _ & Hcr1 & Hla1).
      destruct (RemoveAll_rest cert (RemoveAll key w3).2) as (_ & _ & Hcr2 & Hla2).
      exists [cert; key].
      rewrite Hcr2, Hcr1, Hrc, Hc2, Hc, <- app_assoc. split; [done|]. split.
      * intros p Hp. apply elem_of_cons in Hp as [-> | ->%list_elem_of_singleton].
        -- apply RemoveAll_lookup_below; [done | apply below_refl].
        -- apply RemoveAll_lookup_None.
           apply RemoveAll_lookup_below; [done | apply below_refl].
      * right. exists cert, key. split; [done|]. split; [done|].
        rewrite Hla2, Hla1, Hrl, Hl2, Hl1.
        rewrite (command_environ c _ w w2) by by rewrite He2.
        by rewrite <- !app_assoc.
    + destruct (run os c _ w1) as [r w3] eqn:Er. simpl. unfold NewCloser.
      match type of Er with run _ _ ?a _ = _ =>
        pose proof (run_launched os c a w1) as Hrl;
        pose proof (run_rest os c a w1) as (_ & _ & Hrc) end.
      rewrite Er in Hrl, Hrc. simpl in Hrl, Hrc.
      destruct (RemoveAll_rest cert w3) as (_ & _ & Hcr & Hla).
      exists [cert]. rewrite Hcr, Hrc, Hc. split; [done|]. split.
      * intros p ->%list_elem_of_singleton.
        apply RemoveAll_lookup_below; [done | apply below_refl].
      * right. exists cert, "/". split; [done|]. split; [done|].
        rewrite Hla, Hrl, Hl1.
        rewrite (command_environ c _ w w1) by done.
        by rewrite <- !app_assoc.
  - destruct (nonempty (KeyData creds)) eqn:Ek; simpl.
    + destruct (writeToTmp_cases os (KeyData creds) w)
        as [[Hl2 He2] [(e & new & Hr & Hc2 & Hkeep & Hgone) | (key & Hslash2 & Hr & Hc2)]];
        destruct (writeToTmp os (KeyData creds) w) as [[[f2 cl2] err2] w2];
        simpl in *; injection Hr as -> -> ->; simpl.
      { exists new. split; [done|]. split; [done|]. left. eauto. }
      assert (Hkne : key ≠ "") by by apply slash_nonempty.
      destruct (run os c _ w2) as [r w3] eqn:Er. simpl. unfold NewCloser.
      match type of Er with run _ _ ?a _ = _ =>
        pose proof (run_launched os c a w2) as Hrl;
        pose proof (run_rest os c a w2) as (_ & _ & Hrc) end.
      rewrite Er in Hrl, Hrc. simpl in Hrl, Hrc.
      destruct (RemoveAll_rest key w3) as (_ & _ & Hcr & Hla).
      exists [key]. rewrite Hcr, Hrc, Hc2. split; [done|]. split.
      * intros p ->%list_elem_of_singleton.
        apply RemoveAll_lookup_below; [done | apply below_refl].
      * right. exists "/", key. split; [done|]. split; [done|].
        rewrite Hla, Hrl, Hl2.
        rewrite (command_environ c _ w w2) by done.
        by rewrite <- !app_assoc.
    + destruct (run os c _ w) as [r w3] eqn:Er. simpl.
      match type of Er with run _ _ ?a _ = _ =>
        pose proof (run_launched os c a w) as Hrl;
        pose proof (run_rest os c a w) as (_ & _ & Hrc) end.
      rewrite Er in Hrl, Hrc. simpl in Hrl, Hrc.
      exists []. rewrite app_nil_r. split; [done|]. split.
      * intros p Hp. by apply elem_of_nil in Hp.
      * right. exists "/", "/". split; [done|]. split; [done|]. by rewrite Hrl.
Qed.

(** [Fetch] goes as far as [run] exactly when the secrets could be
    written: it returns the error of the preparation without launching
    anything, or calls [run] once and returns its result. *)
Lemma Fetch_from_prepared (c : Cmd) (repo chartName : string) (creds : Creds)
    (args : list string) (w : World) :
  match Fetch_preparation os creds w with
  | Some e =>
      (Fetch_from os c repo chartName creds args w).1 = ("", Some e) ∧
      launched (Fetch_from os c repo chartName creds args w).2 = launched w
  | None =>
      ∃ certPath keyPath w0,
        Str.mem "/" certPath = true ∧ Str.mem "/" keyPath = true ∧
        environ w0 = environ w ∧ launched w0 = launched w ∧
        (Fetch_from os c repo chartName creds args w).1
        = (run os c
             (args ++
              flag_if (nonempty (CertData creds)) "--cert-file" certPath ++
              flag_if (nonempty (KeyData creds)) "--key-file" keyPath ++
              ["--repo"; repo; chartName]) w0).1 ∧
        launched (Fetch_from os c repo chartName creds args w).2
        = launched w ++
          [command c
             (args ++
              flag_if (nonempty (CertData creds)) "--cert-file" certPath ++
              flag_if (nonempty (KeyData creds)) "--key-file" keyPath ++
              ["--repo"; repo; chartName]) w]
  end.
Proof.
  unfold Fetch_preparation, Fetch_from. go_unfold.
  destruct (nonempty (CertData creds)) eqn:Ec; simpl.
  - destruct (writeToTmp_cases os (CertData creds) w)
      as [[Hl1 He1] [(e & new & Hr & _) | (cert & Hslash & Hr & _)]];
      destruct (writeToTmp os (CertData creds) w) as [[[f1 cl1] err1] w1];
      simpl in *; injection Hr as -> -> ->; simpl; [done|].
    destruct (nonempty (KeyData creds)) eqn:Ek; simpl.
    + destruct (writeToTmp_cases os (KeyData creds) w1)
        as [[Hl2 He2] [(e & new & Hr & _) | (key & Hslash2 & Hr & _)]];
        destruct (writeToTmp os (KeyData creds) w1) as [[[f2 cl2] err2] w2];
        simpl in *; injection Hr as -> -> ->; simpl.
      { unfold NewCloser.
        destruct (RemoveAll_rest cert w2) as (_ & _ & _ & ->).
        split; [done | congruence]. }
      rewrite <- !app_assoc. simpl.
      destruct (run os c _ w2) as [r w3] eqn:Er. simpl. unfold NewCloser.
      match type of Er with run _ _ ?a _ = _ =>
        pose proof (run_launched os c a w2) as Hrl end.
      rewrite Er in Hrl. simpl in Hrl.
      destruct (RemoveAll_rest key w3) as (_ & _ & _ & Hla1).
      destruct (RemoveAll_rest cert (RemoveAll key w3).2) as (_ & _ & _ & Hla2).
      exists cert, key, w2.
      split; [done|]. split; [done|]. split; [congruence|]. split; [congruence|].
      split; [by rewrite Er|].
      rewrite Hla2, Hla1, Hrl, Hl2, Hl1.
      by rewrite (command_environ c _ w w2) by congruence.
    + rewrite <- !app_assoc. simpl.
      destruct (run os c _ w1) as [r w3] eqn:Er. simpl. unfold NewCloser.
      match type of Er with run _ _ ?a _ = _ =>
        pose proof (run_launched os c a w1) as Hrl end.
      rewrite Er in Hrl. simpl in Hrl.
      destruct (RemoveAll_rest cert w3) as (_ & _ & _ & Hla).
      exists cert, "/", w1.
      split; [done|]. split; [done|]. split; [done|]. split; [done|].
      split; [by rewrite Er|].
      rewrite Hla, Hrl, Hl1. by rewrite (command_environ c _ w w1) by done.
  - destruct (nonempty (KeyData creds)) eqn:Ek; simpl.
    + destruct (writeToTmp_cases os (KeyData creds) w)
        as [[Hl2 He2] [(e & new & Hr & _) | (key & Hslash2 & Hr & _)]];
        destruct (writeToTmp os (KeyData creds) w) as [[[f2 cl2] err2] w2];
        simpl in *; injection Hr as -> -> ->; simpl; [done|].
      rewrite <- ?app_assoc. simpl.
      destruct (run os c _ w2) as [r w3] eqn:Er. simpl. unfold NewCloser.
      match type of Er with run _ _ ?a _ = _ =>
        pose proof (run_launched os c a w2) as Hrl end.
      rewrite Er in Hrl. simpl in Hrl.
      destruct (RemoveAll_rest key w3) as (_ & _ & _ & Hla).
      exists "/", key, w2.
      split; [done|]. split; [done|]. split; [done|]. split; [done|].
      split; [by rewrite Er|].
      rewrite Hla, Hrl, Hl2. by rewrite (command_environ c _ w w2) by done.
    + destruct (run os c _ w) as [r w3] eqn:Er. simpl.
      match type of Er with run _ _ ?a _ = _ =>
        pose proof (run_launched os c a w) as Hrl end.
      rewrite Er in Hrl. simpl in Hrl.
      exists "/", "/", w. repeat split; try done. by rewrite Er.
Qed.

End Fetch.

Lemma nonempty_false (s : string) : nonempty s = false ↔ s = "".
Proof.
  unfold nonempty. rewrite negb_false_iff. apply String.eqb_eq.
Qed.

Lemma nonempty_true (s : string) : nonempty s = true ↔ s ≠ "".
Proof.
  unfold nonempty. rewrite negb_true_iff. apply String.eqb_neq.
Qed.

Lemma elem_of_flag_if (x : string) (b : bool) (flag value : string) :
  x ∈ flag_if b flag value → x = flag ∨ x = value.
Proof.
  destruct b; simpl; [|by intros ?%elem_of_nil].
  intros [-> | ->%list_elem_of_singleton]%elem_of_cons; auto.
Qed.

Lemma not_elem_of_flag_if (x : string) (b : bool) (flag value : string) :
  x ≠ flag → x ≠ value → x ∉ flag_if b flag value.
Proof. intros H1 H2 [-> | ->]%elem_of_flag_if; done. Qed.

Section FetchProperties.

Context (os : OS).

(** The sibling of [RepoAdd]: whatever happens, no file that [Fetch]
    has created is on disk when it returns. *)
Theorem Fetch_removes_temp_files (c : Cmd)
    (repo chartName version destination : string) (creds : Creds) (w : World) :
  ∃ new,
    created (Fetch os c repo chartName version destination creds w).2
      = created w ++ new ∧
    ∀ p, p ∈ new →
      fs (Fetch os c repo chartName version destination creds w).2 !! p = None.
Proof.
  rewrite Fetch_eq.
  destruct (Fetch_from_cases os c repo chartName creds
              ([pullCommand c; "--destination"; destination] ++
               flag_if (nonempty version) "--version" version ++
               inline_cred_flags creds) w) as (new & Hc & Hgone & _).
  eauto.
Qed.

(** C6: [Fetch] stops before it launches anything only when a secret
    cannot be written to its temporary file, whatever [version] is, and
    then returns that error.  Otherwise it launches the tool once with
    the arguments [pullCommand --destination destination], then the pair
    [--version version] when [version] is not empty and nothing when it
    is, then the credential flags, then the trailing
    [--repo repo chartName].  When no string given by the caller is
    itself ["--version"], the flag does not occur in the list for an
    empty [version], and for another [version] it occurs neither before
    the pair nor after it. *)
Theorem Fetch_version_flag (c : Cmd)
    (repo chartName version destination : string) (creds : Creds) (w : World) :
  match Fetch_preparation os creds w with
  | Some e =>
      (Fetch os c repo chartName version destination creds w).1 = ("", Some e) ∧
      launched (Fetch os c repo chartName version destination creds w).2
        = launched w
  | None =>
      ∃ p certPath keyPath,
        launched (Fetch os c repo chartName version destination creds w).2
          = launched w ++ [p] ∧
        Args p = [pullCommand c; "--destination"; destination] ++
                 (if nonempty version then ["--version"; version] else []) ++
                 (inline_cred_flags creds ++
                  flag_if (nonempty (CertData creds)) "--cert-file" certPath ++
                  flag_if (nonempty (KeyData creds)) "--key-file" keyPath) ++
                 ["--repo"; repo; chartName] ∧
        (pullCommand c ≠ "--version" → destination ≠ "--version" →
         Username creds ≠ "--version" → Password creds ≠ "--version" →
         CAPath creds ≠ "--version" → repo ≠ "--version" →
         chartName ≠ "--version" →
         ("--version" ∉ [pullCommand c; "--destination"; destination]) ∧
         ("--version" ∉
            ((inline_cred_flags creds ++
              flag_if (nonempty (CertData creds)) "--cert-file" certPath ++
              flag_if (nonempty (KeyData creds)) "--key-file" keyPath) ++
             ["--repo"; repo; chartName])) ∧
         (version = "" → "--version" ∉ Args p))
  end.
Proof.
  rewrite Fetch_eq.
  pose proof (Fetch_from_prepared os c repo chartName creds
                ([pullCommand c; "--destination"; destination] ++
                 flag_if (nonempty version) "--version" version ++
                 inline_cred_flags creds) w) as H.
  destruct (Fetch_preparation os creds w) as [e|]; [exact H|].
  destruct H as (certPath & keyPath & w0 & Hs1 & Hs2 & _ & _ & _ & Hl).
  assert (Hcert : certPath ≠ "--version") by by apply (mem_differ "/").
  assert (Hkey : keyPath ≠ "--version") by by apply (mem_differ "/").
  eexists _, certPath, keyPath.
  split; [exact Hl|]. split.
  { simpl. unfold flag_if at 1. by rewrite <- !app_assoc. }
  intros Hpull Hdest Huser Hpass Hca Hrepo Hchart.
  assert (Hhead : "--version" ∉ [pullCommand c; "--destination"; destination]).
  { rewrite !not_elem_of_cons. repeat split; try done. apply not_elem_of_nil. }
  assert (Htail : "--version" ∉
    ((inline_cred_flags creds ++
      flag_if (nonempty (CertData creds)) "--cert-file" certPath ++
      flag_if (nonempty (KeyData creds)) "--key-file" keyPath) ++
     ["--repo"; repo; chartName])).
  { unfold inline_cred_flags. rewrite !not_elem_of_app.
    repeat split; try (by apply not_elem_of_flag_if).
    rewrite !not_elem_of_cons. repeat split; try done. apply not_elem_of_nil. }
  split; [done | split; [done|]].
  intros ->. change (nonempty "") with false.
  cbn [Args command flag_if].
  rewrite !not_elem_of_app in Htail. rewrite !not_elem_of_app.
  pose proof (not_elem_of_nil "--version"). tauto.
Qed.


End FetchProperties.

(** ** Cmd.template *)

Lemma foldl_set_flag (flag : string) (args : list string)
    (kvs : list (string * string)) :
  foldl (set_flag flag) args kvs = args ++ set_flags flag kvs.
Proof.
  revert args. induction kvs as [|kv kvs IH]; intros args; simpl.
  - by rewrite app_nil_r.
  - rewrite IH. unfold set_flag, set_flags. simpl. by rewrite <- app_assoc.
Qed.

Lemma foldl_each_flag (flag : string) (args vals : list string) :
  foldl (λ args v, args ++ [flag; v]) args vals = args ++ each_flag flag vals.
Proof.
  revert args. induction vals as [|v vals IH]; intros args; simpl.
  - by rewrite app_nil_r.
  - rewrite IH. unfold each_flag. simpl. by rewrite <- app_assoc.
Qed.

Lemma template_args_eq (c : Cmd) (chartPath : string) (opts : TemplateOpts)
    (ks ss fls : list (string * string)) :
  template_args c chartPath opts ks ss fls
  = template_head c chartPath opts ++
    set_flags "--set" ks ++ set_flags "--set-string" ss ++
    set_flags "--set-file" fls ++ template_tail opts.
Proof.
  unfold template_args, template_head, template_tail.
  rewrite !foldl_each_flag, !foldl_set_flag, <- !app_assoc.
  unfold flag_if.
  destruct (nonempty (Namespace opts)),
    (nonempty (KubeVersion opts) && kubeVersionSupported c); reflexivity.
Qed.

Lemma template_launched (os : OS) (c : Cmd) (chartPath : string)
    (opts : TemplateOpts) (w : World) :
  ∃ ks ss fls,
    ks ≡ₚ map_to_list (Set_ opts) ∧ ss ≡ₚ map_to_list (SetString opts) ∧
    fls ≡ₚ map_to_list (SetFile opts) ∧
    launched (template os c chartPath opts w).2
    = launched w ++ [command c (template_args c chartPath opts ks ss fls) w].
Proof.
  unfold template, range. go_unfold. simpl.
  destruct (run os c _ _) as [r w3] eqn:Er. simpl.
  match type of Er with run _ _ ?a ?w0 = _ =>
    pose proof (run_launched os c a w0) as Hrl end.
  rewrite Er in Hrl. simpl in Hrl.
  eexists _, _, _. split; [apply range_order_perm|].
  split; [apply range_order_perm|]. split; [apply range_order_perm|].
  exact Hrl.
Qed.

Lemma not_elem_of_set_flags (x flag : string) (kvs : list (string * string)) :
  x ≠ flag → Str.mem "=" x = false → x ∉ set_flags flag kvs.
Proof.
  intros Hf Hx. unfold set_flags. induction kvs as [|kv kvs IH]; simpl.
  - apply not_elem_of_nil.
  - rewrite !not_elem_of_cons. split; [done|]. split; [|done].
    apply not_eq_sym, (mem_differ "="); [|done].
    rewrite mem_append. simpl. by rewrite orb_true_r.
Qed.

Lemma not_elem_of_each_flag (x flag : string) (vals : list string) :
  x ≠ flag → Forall (λ v, v ≠ x) vals → x ∉ each_flag flag vals.
Proof.
  intros Hf Hvals. unfold each_flag. induction Hvals as [|v vals Hv _ IH]; simpl.
  - apply not_elem_of_nil.
  - rewrite !not_elem_of_cons. split; [done|]. split; [|done]. by apply not_eq_sym.
Qed.

(** C7: [template] launches the tool once, with an argument list in
    which the pair [--kube-version KubeVersion] stands, after the head and
    the namespace, exactly when [KubeVersion] is not empty and the profile
    has [kubeVersionSupported]; when no string given by the caller is
    itself ["--kube-version"], the flag is nowhere else in the list: for a
    profile with [kubeVersionSupported = false] the list holds no
    [--kube-version], whatever [KubeVersion] is, and the flag is in the
    list only when [kubeVersionSupported] is true and [KubeVersion] is not
    empty. *)
Theorem template_kube_version (os : OS) (c : Cmd) (chartPath : string)
    (opts : TemplateOpts) (w : World) :
  ∃ p pre post,
    launched (template os c chartPath opts w).2 = launched w ++ [p] ∧
    Args p = pre ++
             (if nonempty (KubeVersion opts) && kubeVersionSupported c
              then ["--kube-version"; KubeVersion opts] else []) ++
             post ∧
    (chartPath ≠ "--kube-version" → templateNameArg c ≠ "--kube-version" →
     Name opts ≠ "--kube-version" → Namespace opts ≠ "--kube-version" →
     Forall (λ v, v ≠ "--kube-version") (Values opts) →
     Forall (λ v, v ≠ "--kube-version") (APIVersions opts) →
     ("--kube-version" ∉ pre) ∧ ("--kube-version" ∉ post) ∧
     (kubeVersionSupported c = false → "--kube-version" ∉ Args p) ∧
     ("--kube-version" ∈ Args p →
        kubeVersionSupported c = true ∧ KubeVersion opts ≠ "")).
Proof.
  destruct (template_launched os c chartPath opts w)
    as (ks & ss & fls & _ & _ & _ & Hl).
  eexists _,
    (["template"; chartPath; templateNameArg c; Name opts] ++
     flag_if (nonempty (Namespace opts)) "--namespace" (Namespace opts)),
    (set_flags "--set" ks ++ set_flags "--set-string" ss ++
     set_flags "--set-file" fls ++ template_tail opts).
  split; [exact Hl|]. simpl Args. rewrite template_args_eq.
  split; [unfold template_head, flag_if; by rewrite <- !app_assoc|].
  intros Hchart Hname Hrel Hns Hvals Hapis.
  assert (Hpre : "--kube-version" ∉
    (["template"; chartPath; templateNameArg c; Name opts] ++
     flag_if (nonempty (Namespace opts)) "--namespace" (Namespace opts))).
  { rewrite not_elem_of_app, !not_elem_of_cons.
    repeat split; try done; [apply not_elem_of_nil|].
    by apply not_elem_of_flag_if. }
  assert (Hpost : "--kube-version" ∉
    (set_flags "--set" ks ++ set_flags "--set-string" ss ++
     set_flags "--set-file" fls ++ template_tail opts)).
  { unfold template_tail. rewrite !not_elem_of_app.
    repeat split; try (by apply not_elem_of_set_flags);
      by apply not_elem_of_each_flag. }
  assert (Hoff : nonempty (KubeVersion opts) && kubeVersionSupported c = false →
    "--kube-version" ∉
      (template_head c chartPath opts ++ set_flags "--set" ks ++
       set_flags "--set-string" ss ++ set_flags "--set-file" fls ++
       template_tail opts)).
  { intros E. unfold template_head. rewrite E. simpl flag_if.
    rewrite app_nil_r. by rewrite not_elem_of_app. }
  split; [done | split; [done | split]].
  - intros Hsup. apply Hoff. rewrite Hsup. apply andb_false_r.
  - intros Hin.
    destruct (nonempty (KubeVersion opts) && kubeVersionSupported c) eqn:E.
    + apply andb_true_iff in E as [E1 E2]. by apply nonempty_true in E1.
    + by apply Hoff in Hin.
Qed.

(** C5 (amended): two constructions of the argument list for the same
    options, in any two states of the run, agree on everything but the
    order of the entries inside the [--set], [--set-string] and
    [--set-file] groups: both lists are the same head, then the flags for
    an enumeration of each mapping, then the same tail; they are the same
    list when no mapping has more than one entry. *)
Theorem template_args_up_to_order (os : OS) (c : Cmd) (chartPath : string)
    (opts : TemplateOpts) (w1 w2 : World) :
  ∃ p1 p2 ks1 ss1 fls1 ks2 ss2 fls2,
    launched (template os c chartPath opts w1).2 = launched w1 ++ [p1] ∧
    launched (template os c chartPath opts w2).2 = launched w2 ++ [p2] ∧
    Args p1 = template_head c chartPath opts ++
              set_flags "--set" ks1 ++ set_flags "--set-string" ss1 ++
              set_flags "--set-file" fls1 ++ template_tail opts ∧
    Args p2 = template_head c chartPath opts ++
              set_flags "--set" ks2 ++ set_flags "--set-string" ss2 ++
              set_flags "--set-file" fls2 ++ template_tail opts ∧
    ks1 ≡ₚ map_to_list (Set_ opts) ∧ ks2 ≡ₚ map_to_list (Set_ opts) ∧
    ss1 ≡ₚ map_to_list (SetString opts) ∧ ss2 ≡ₚ map_to_list (SetString opts) ∧
    fls1 ≡ₚ map_to_list (SetFile opts) ∧ fls2 ≡ₚ map_to_list (SetFile opts) ∧
    (size (Set_ opts) ≤ 1 → size (SetString opts) ≤ 1 →
     size (SetFile opts) ≤ 1 → Args p1 = Args p2).
Proof.
  destruct (template_launched os c chartPath opts w1)
    as (ks1 & ss1 & fls1 & Hk1 & Hs1 & Hf1 & Hl1).
  destruct (template_launched os c chartPath opts w2)
    as (ks2 & ss2 & fls2 & Hk2 & Hs2 & Hf2 & Hl2).
  assert (Hsmall : ∀ (m : gmap string string) l1 l2,
            l1 ≡ₚ map_to_list m → l2 ≡ₚ map_to_list m → size m ≤ 1 → l1 = l2).
  { intros m l1 l2 H1 H2 Hsz. rewrite <- length_map_to_list in Hsz.
    destruct (map_to_list m) as [|x [|y l]]; simpl in Hsz; [| |lia].
    - apply Permutation_nil_r in H1, H2. congruence.
    - apply Permutation_singleton_r in H1, H2. congruence. }
  eexists _, _, ks1, ss1, fls1, ks2, ss2, fls2.
  split; [exact Hl1|]. split; [exact Hl2|]. simpl Args.
  rewrite !template_args_eq. repeat split; try done.
  intros Hk Hs Hf.
  by rewrite (Hsmall _ ks1 ks2 Hk1 Hk2 Hk), (Hsmall _ ss1 ss2 Hs1 Hs2 Hs),
    (Hsmall _ fls1 fls2 Hf1 Hf2 Hf).
Qed.

(** ** The environment of the child process *)

Lemma has_prefix_app (a b : string) : Str.has_prefix a (a +:+ b) = true.
Proof. apply has_prefix_true. eauto. Qed.

Lemma subdirectory_of_child (home name : string) :
  name ≠ "" → subdirectory_of home (home +:+ "/" +:+ name) = true.
Proof.
  intros Hname. unfold subdirectory_of. apply andb_true_iff. split.
  - rewrite <- append_assoc. apply has_prefix_app.
  - apply negb_true_iff, String.eqb_neq. intros E.
    rewrite <- (append_nil_r (home +:+ "/")), <- !append_assoc in E.
    apply (inj (String.app _)) in E. done.
Qed.

Lemma subdirectory_of_self (home : string) : subdirectory_of home home = false.
Proof.
  unfold subdirectory_of. apply andb_false_iff. left.
  destruct (Str.has_prefix (home +:+ "/") home) eqn:E; [|done].
  apply has_prefix_true in E as [r E].
  apply (f_equal String.length) in E. rewrite !length_append in E.
  simpl in E. lia.
Qed.

(** C8 (amended): the process that [run] launches has the profile's
    binary name, the given arguments, the session's working directory and
    the inherited environment followed by exactly four entries: the cache,
    config and data paths are the subdirectories [cache], [config] and
    [data] of the session's home directory and [HELM_HOME] is the home
    directory itself, which is not one of its subdirectories. *)
Theorem run_process (os : OS) (c : Cmd) (args : list string) (w : World) :
  launched (run os c args w).2 = launched w ++
    [{| Path := binaryName c;
        Args := args;
        Dir := WorkDir c;
        Env := environ w ++
          [ "XDG_CACHE_HOME=" +:+ (helmHome c +:+ "/" +:+ "cache");
            "XDG_CONFIG_HOME=" +:+ (helmHome c +:+ "/" +:+ "config");
            "XDG_DATA_HOME=" +:+ (helmHome c +:+ "/" +:+ "data");
            "HELM_HOME=" +:+ helmHome c ] |}] ∧
  subdirectory_of (helmHome c) (helmHome c +:+ "/" +:+ "cache") = true ∧
  subdirectory_of (helmHome c) (helmHome c +:+ "/" +:+ "config") = true ∧
  subdirectory_of (helmHome c) (helmHome c +:+ "/" +:+ "data") = true ∧
  subdirectory_of (helmHome c) (helmHome c) = false.
Proof.
  split; [apply run_launched|].
  repeat split; try (by apply subdirectory_of_child).
  apply subdirectory_of_self.
Qed.

(** ** Concrete runs *)

(** C1 (the code at the failing input): [RepoAdd] with a client
    certificate and key creates a directory and two files; when it
    returns, with success, the directory is gone and the two files are
    still on disk with the secret bytes; and when the write of the
    certificate fails, it returns the error and the file is still on disk
    with what was written. *)
Theorem RepoAdd_leaves_secret_files :
  (RepoAdd quiet_os (session modern_profile) "myrepo" "https://example.com"
     client_cert start).1 = ("ok", None) ∧
  created (RepoAdd quiet_os (session modern_profile) "myrepo"
             "https://example.com" client_cert start).2
    = ["/tmp/helm0"; "/tmp/helm10"; "/tmp/helm110"] ∧
  fs (RepoAdd quiet_os (session modern_profile) "myrepo"
        "https://example.com" client_cert start).2 !! "/tmp/helm0" = None ∧
  fs (RepoAdd quiet_os (session modern_profile) "myrepo"
        "https://example.com" client_cert start).2 !! "/tmp/helm10"
    = Some (Regular "CERT") ∧
  fs (RepoAdd quiet_os (session modern_profile) "myrepo"
        "https://example.com" client_cert start).2 !! "/tmp/helm110"
    = Some (Regular "KEY") ∧
  (RepoAdd full_disk_os (session modern_profile) "myrepo" "https://example.com"
     client_cert start).1 = ("", Some (PathError "write" "/tmp/helm10")) ∧
  fs (RepoAdd full_disk_os (session modern_profile) "myrepo"
        "https://example.com" client_cert start).2 !! "/tmp/helm10"
    = Some (Regular "CE").
Proof. repeat split; vm_compute; reflexivity. Qed.

(** [Fetch] on the same input leaves nothing behind. *)
Example Fetch_client_cert :
  created (Fetch quiet_os (session modern_profile) "https://example.com"
             "chart" "1.2.3" "/dst" client_cert start).2 = ["/tmp/0"; "/tmp/10"] ∧
  fs (Fetch quiet_os (session modern_profile) "https://example.com"
        "chart" "1.2.3" "/dst" client_cert start).2 = fs start ∧
  map Args (launched (Fetch quiet_os (session modern_profile)
                        "https://example.com" "chart" "1.2.3" "/dst"
                        client_cert start).2)
    = [["pull"; "--destination"; "/dst"; "--version"; "1.2.3";
        "--cert-file"; "/tmp/0"; "--key-file"; "/tmp/10";
        "--repo"; "https://example.com"; "chart"]].
Proof. repeat split; vm_compute; reflexivity. Qed.

(** C5 (the claim fails on the code): two constructions of the argument
    list for the same options in one run, on a runtime whose [range]
    starts at another entry the second time, give two different lists. *)
Lemma template_order_changes :
  let first := template quiet_os (session modern_profile) "./chart"
                 two_values start in
  let second := template quiet_os (session modern_profile) "./chart"
                  two_values first.2 in
  map Args (launched second.2)
    = [["template"; "./chart"; "--name-template"; "r1";
        "--kube-version"; "1.18"; "--set"; "a=1"; "--set"; "b=2"];
       ["template"; "./chart"; "--name-template"; "r1";
        "--kube-version"; "1.18"; "--set"; "b=2"; "--set"; "a=1"]] ∧
  ["template"; "./chart"; "--name-template"; "r1";
   "--kube-version"; "1.18"; "--set"; "a=1"; "--set"; "b=2"]
  ≠ ["template"; "./chart"; "--name-template"; "r1";
     "--kube-version"; "1.18"; "--set"; "b=2"; "--set"; "a=1"].
Proof. split; [vm_compute; reflexivity | discriminate]. Qed.

Lemma template_args_up_to_order_witness :
  ∃ p1 p2,
    launched (template quiet_os (session modern_profile) "./chart" one_value
                start).2 = launched start ++ [p1] ∧
    launched (template quiet_os (session modern_profile) "./chart" one_value
                (template quiet_os (session modern_profile) "./chart"
                   one_value start).2).2
      = launched (template quiet_os (session modern_profile) "./chart"
                    one_value start).2 ++ [p2] ∧
    Args p1 = Args p2.
Proof.
  destruct (template_args_up_to_order quiet_os (session modern_profile)
              "./chart" one_value start
              (template quiet_os (session modern_profile) "./chart"
                 one_value start).2)
    as (p1 & p2 & ks1 & ss1 & fls1 & ks2 & ss2 & fls2 & H1 & H2 & _ & _ &
        _ & _ & _ & _ & _ & _ & Heq).
  exists p1, p2. split; [exact H1|]. split; [exact H2|].
  apply Heq; vm_compute; lia.
Defined.

(** C8 (the claim fails on the code): the last of the four overrides of
    a launched process is [HELM_HOME=/tmp/helm-home], the home directory
    itself, so that the four overrides do not all point into
    subdirectories of the home directory. *)
Lemma run_helm_home_is_home :
  ∃ p,
    launched (run quiet_os (session modern_profile) ["dependency"; "build"]
                start).2 = [p] ∧
    Env p = ["PATH=/usr/bin"; "XDG_CACHE_HOME=/tmp/helm-home/cache";
             "XDG_CONFIG_HOME=/tmp/helm-home/config";
             "XDG_DATA_HOME=/tmp/helm-home/data"; "HELM_HOME=/tmp/helm-home"] ∧
    ¬ overrides_in_subdirectories "/tmp/helm-home" (environ start) (Env p).
Proof.
  eexists. split; [vm_compute; reflexivity|]. split; [reflexivity|].
  intros (cache & config & data & hm & Henv & _ & _ & _ & Hhm).
  simpl in Henv. injection Henv as _ _ _ <-.
  discriminate Hhm.
Qed.

(** C4 (the claim fails on the code): after [Close] the operations
    return no error: [Init] on a profile without the init step returns the
    empty output, and the other operations launch the tool and return its
    output. *)
Lemma operations_after_Close_succeed :
  let c := session modern_profile in
  let closed := Close c start in
  fs closed !! "/tmp/helm-home" = None ∧
  (Init quiet_os c closed).1 = ("", None) ∧
  (Init quiet_os (session legacy_profile) closed).1 = ("ok", None) ∧
  (dependencyBuild quiet_os c closed).1 = ("ok", None) ∧
  (inspectValues quiet_os c "values.yaml" closed).1 = ("ok", None) ∧
  (template quiet_os c "./chart" one_value closed).1 = ("ok", None) ∧
  (Fetch quiet_os c "https://example.com" "chart" "" "/dst" no_creds closed).1
    = ("ok", None) ∧
  (RepoAdd quiet_os c "myrepo" "https://example.com" no_creds closed).1
    = ("ok", None).
Proof. repeat split; vm_compute; reflexivity. Qed.

Lemma Fetch_version_flag_witness :
  (∃ p rest,
     launched (Fetch quiet_os (session modern_profile) "https://example.com"
                 "chart" "1.2.3" "/dst" client_cert start).2
       = launched start ++ [p] ∧
     Args p = ["pull"; "--destination"; "/dst"] ++ ["--version"; "1.2.3"] ++
              rest ++ ["--repo"; "https://example.com"; "chart"] ∧
     "--version" ∉ rest ++ ["--repo"; "https://example.com"; "chart"]) ∧
  (∃ p,
     launched (Fetch quiet_os (session modern_profile) "https://example.com"
                 "chart" "" "/dst" no_creds start).2 = launched start ++ [p] ∧
     "--version" ∉ Args p).
Proof.
  split.
  - pose proof (Fetch_version_flag quiet_os (session modern_profile)
                  "https://example.com" "chart" "1.2.3" "/dst" client_cert
                  start) as H.
    assert (E : Fetch_preparation quiet_os client_cert start = None)
      by (vm_compute; reflexivity).
    rewrite E in H. destruct H as (p & certPath & keyPath & Hl & Ha & Hno).
    exists p, (inline_cred_flags client_cert ++
               flag_if (nonempty (CertData client_cert)) "--cert-file" certPath ++
               flag_if (nonempty (KeyData client_cert)) "--key-file" keyPath).
    split; [exact Hl|]. split; [exact Ha|].
    apply Hno; discriminate.
  - pose proof (Fetch_version_flag quiet_os (session modern_profile)
                  "https://example.com" "chart" "" "/dst" no_creds start) as H.
    assert (E : Fetch_preparation quiet_os no_creds start = None)
      by (vm_compute; reflexivity).
    rewrite E in H. destruct H as (p & certPath & keyPath & Hl & _ & Hno).
    exists p. split; [exact Hl|].
    apply Hno; first [discriminate | reflexivity].
Defined.


Lemma template_kube_version_witness :
  ∃ p,
    launched (template quiet_os (session legacy_profile) "./chart" one_value
                start).2 = launched start ++ [p] ∧
    "--kube-version" ∉ Args p.
Proof.
  destruct (template_kube_version quiet_os (session legacy_profile) "./chart"
              one_value start) as (p & pre & post & Hl & _ & Hno).
  exists p. split; [exact Hl|].
  apply Hno; first [discriminate | by constructor | reflexivity].
Defined.

Lemma writeToTmp_write_failure_witness :
  (writeToTmp full_disk_os "KEY" start).1
    = ("", None, Some (PathError "write" "/tmp/0")) ∧
  fs (writeToTmp full_disk_os "KEY" start).2 !! "/tmp/0" = None ∧
  (∀ q, below "/tmp/0" q = false →
     fs (writeToTmp full_disk_os "KEY" start).2 !! q = fs start !! q).
Proof.
  apply (writeToTmp_write_failure full_disk_os "KEY" "/tmp/0" "KE" start
           (TempFile full_disk_os "" "" start).2); reflexivity.
Defined.

Example Fetch_without_version :
  map Args (launched (Fetch quiet_os (session legacy_profile)
                        "https://example.com" "chart" "" "/dst"
                        no_creds start).2)
    = [["fetch"; "--destination"; "/dst";
        "--repo"; "https://example.com"; "chart"]].
Proof. vm_compute; reflexivity. Qed.

Example RepoAdd_username_password :
  map Args (launched (RepoAdd quiet_os (session modern_profile) "myrepo"
                        "https://example.com"
                        {| Username := "u"; Password := "p"; CAPath := "";
                           CertData := ""; KeyData := "" |} start).2)
    = [["repo"; "add"; "--username"; "u"; "--password"; "p";
        "myrepo"; "https://example.com"]].
Proof. vm_compute; reflexivity. Qed.

(** * Further properties *)

(** ** The redactor on any text *)

Lemma fields_not_nil (s : string) : fields s ≠ [].
Proof.
  induction s as [|c s IH]; simpl; [done|].
  destruct (Ascii.eqb c space); [done|]. by destruct (fields s).
Qed.

Lemma join_fields (s : string) : Str.join " " (fields s) = s.
Proof.
  induction s as [|c s IH]; [done|]. simpl fields.
  destruct (Ascii.eqb c space) eqn:E.
  - apply Ascii.eqb_eq in E as ->. rewrite join_cons.
    pose proof (fields_not_nil s) as Hne.
    destruct (fields s) as [|t ts] eqn:Ef; [done|].
    unfold after. simpl. by rewrite <- IH.
  - pose proof (fields_not_nil s) as Hne.
    destruct (fields s) as [|t ts] eqn:Ef; [done|].
    rewrite join_cons. rewrite join_cons in IH. simpl. by rewrite IH.
Qed.

Lemma fields_space_free (s : string) : Forall space_free (fields s).
Proof.
  induction s as [|c s IH]; simpl.
  - by repeat constructor.
  - destruct (Ascii.eqb c space) eqn:E; [by constructor|].
    destruct (fields s) as [|t ts]; [repeat constructor|].
    + unfold space_free. simpl. by rewrite E.
    + apply Forall_cons in IH as [Ht Hts]. constructor; [|done].
      unfold space_free in *. simpl. by rewrite E, Ht.
Qed.

Lemma fields_token (t s : string) :
  space_free t → fields (t +:+ String space s) = t :: fields s.
Proof.
  unfold space_free. intros Ht. induction t as [|c t IH]; simpl.
  - done.
  - simpl in Ht. apply orb_false_iff in Ht as [Hc Ht].
    rewrite Hc. by rewrite IH.
Qed.

Lemma fields_last (t : string) : space_free t → fields t = [t].
Proof.
  unfold space_free. intros Ht. induction t as [|c t IH]; simpl; [done|].
  simpl in Ht. apply orb_false_iff in Ht as [Hc Ht].
  rewrite Hc. by rewrite IH.
Qed.

Lemma fields_join (ts : list string) :
  Forall space_free ts → ts ≠ [] → fields (Str.join " " ts) = ts.
Proof.
  induction 1 as [|t ts Ht Hts IH]; [done|]. intros _.
  rewrite join_cons. destruct ts as [|v rest].
  - unfold after. rewrite append_nil_r. by apply fields_last.
  - unfold after. rewrite fields_token by done. f_equal. by apply IH.
Qed.

Lemma mask_tokens_space_free (ts : list string) :
  Forall space_free ts → Forall space_free (mask_tokens ts).
Proof.
  induction ts as [| t | t v rest Ht IH | t v rest Ht IH] using tokens_ind;
    intros Hts; try done.
  - rewrite mask_tokens_flag by done.
    apply Forall_cons in Hts as [H1 Hts]. apply Forall_cons in Hts as [_ Hts].
    constructor; [done|]. constructor; [done|]. by apply IH.
  - rewrite mask_tokens_plain by done.
    apply Forall_cons in Hts as [H1 Hts]. constructor; [done|]. by apply IH.
Qed.

Lemma mask_tokens_idemp (ts : list string) :
  mask_tokens (mask_tokens ts) = mask_tokens ts.
Proof.
  induction ts as [| t | t v rest Ht IH | t v rest Ht IH] using tokens_ind;
    try done.
  - rewrite !mask_tokens_flag by done. by rewrite IH.
  - rewrite !mask_tokens_plain by done. by rewrite IH.
Qed.

Lemma fields_redactor (s : string) :
  fields (redactor s) = mask_tokens (fields s).
Proof.
  rewrite <- (join_fields s) at 1.
  rewrite redactor_tokens by apply fields_space_free.
  apply fields_join.
  - apply mask_tokens_space_free, fields_space_free.
  - intros E%mask_tokens_nil. by apply fields_not_nil in E.
Qed.

Lemma contains_cons (sub : string) (c : ascii) (s : string) :
  Str.contains sub (String c s)
  = Str.has_prefix sub (String c s) || Str.contains sub s.
Proof. reflexivity. Qed.

(** X1: A text in which neither [--username ] nor [--password ] occurs is
    returned as it is. *)
Theorem redactor_unchanged_without_flag (s : string) :
  Str.contains "--username " s = false →
  Str.contains "--password " s = false →
  redactor s = s.
Proof.
  induction s as [|c s IH]; intros Hu Hp; [apply redactor_empty|].
  rewrite contains_cons in Hu, Hp.
  apply orb_false_iff in Hu as [Hu1 Hu2]. apply orb_false_iff in Hp as [Hp1 Hp2].
  rewrite redactor_copy; [by rewrite IH|].
  unfold redact_match. by rewrite Hu1, Hp1.
Qed.

(** X2: The redactor applied to its own result changes nothing more. *)
Theorem redactor_idempotent (s : string) :
  redactor (redactor s) = redactor s.
Proof.
  rewrite <- (join_fields s).
  rewrite redactor_tokens by apply fields_space_free.
  rewrite redactor_tokens
    by apply mask_tokens_space_free, fields_space_free.
  by rewrite mask_tokens_idemp.
Qed.

Lemma mask_tokens_after_flag (ts : list string) (i : nat) (t u : string) :
  mask_tokens ts !! i = Some t → ends_in_flag t = true →
  mask_tokens ts !! S i = Some u → u = "******".
Proof.
  revert i.
  induction ts as [| t0 | t0 v rest Ht IH | t0 v rest Ht IH] using tokens_ind;
    intros i Hi Hf Hs; try done.
  - rewrite mask_tokens_flag in Hi, Hs by done.
    destruct i as [|[|i]]; simpl in *.
    + congruence.
    + injection Hi as <-. discriminate Hf.
    + by eapply IH.
  - rewrite mask_tokens_plain in Hi, Hs by done.
    destruct i as [|i]; simpl in *.
    + congruence.
    + by eapply IH.
Qed.

(** X3: In the result of the redactor, the field that follows a field ending
    in [--username] or [--password] is the mask. *)
Theorem redactor_value_after_flag_masked (s : string) (i : nat) (t u : string) :
  fields (redactor s) !! i = Some t → ends_in_flag t = true →
  fields (redactor s) !! S i = Some u → u = "******".
Proof. rewrite fields_redactor. apply mask_tokens_after_flag. Qed.

Lemma redactor_value_after_flag_masked_witness :
  fields (redactor "login --password hunter2 ok") !! 2 = Some "******".
Proof.
  assert (H : ∃ u, fields (redactor "login --password hunter2 ok") !! 2 = Some u)
    by (eexists; reflexivity).
  destruct H as [u Hu]. rewrite Hu. f_equal.
  apply (redactor_value_after_flag_masked "login --password hunter2 ok" 1
           "--password" u); [reflexivity | reflexivity | exact Hu].
Defined.

Lemma redactor_unchanged_without_flag_witness :
  redactor "Error: chart not found --username" = "Error: chart not found --username".
Proof. apply redactor_unchanged_without_flag; reflexivity. Defined.

Lemma mask_tokens_fields (ts : list string) (i : nat) (t : string) :
  mask_tokens ts !! i = Some t →
  ts !! i = Some t ∨
  (t = "******" ∧ ∃ j f, i = S j ∧ ts !! j = Some f ∧ ends_in_flag f = true).
Proof.
  revert i.
  induction ts as [| t0 | t0 v rest Ht IH | t0 v rest Ht IH] using tokens_ind;
    intros i Hi; try (by left).
  - rewrite mask_tokens_flag in Hi by done.
    destruct i as [|[|i]]; simpl in *.
    + by left.
    + injection Hi as <-. right. split; [done|]. exists 0, t0. done.
    + destruct (IH i Hi) as [H | (-> & j & f & -> & Hj & Hf)]; [by left|].
      right. split; [done|]. exists (S (S j)), f. done.
  - rewrite mask_tokens_plain in Hi by done.
    destruct i as [|i]; simpl in *; [by left|].
    destruct (IH i Hi) as [H | (-> & j & f & -> & Hj & Hf)]; [by left|].
    right. split; [done|]. exists (S j), f. done.
Qed.

(** X4: The result of the redactor has as many fields as the text, and each
    of its fields is the field of the text at the same place, or is the
    mask and stands after a field of the text that ends in a flag. *)
Theorem redactor_fields (s : string) :
  length (fields (redactor s)) = length (fields s) ∧
  ∀ i t, fields (redactor s) !! i = Some t →
    fields s !! i = Some t ∨
    (t = "******" ∧
     ∃ j f, i = S j ∧ fields s !! j = Some f ∧ ends_in_flag f = true).
Proof.
  rewrite fields_redactor. split; [apply mask_tokens_length|].
  apply mask_tokens_fields.
Qed.

(** ** cleanSetParameters on any value *)

Lemma clean_match_cons (c : ascii) (s : string) :
  clean_match (String c s) =
    match s with
    | EmptyString => None
    | String d rest =>
        if plain_then_comma c d
        then Some (String c (String backslash (String comma EmptyString)), rest)
        else None
    end.
Proof. reflexivity. Qed.

Lemma clean_nil : cleanSetParameters "" = "".
Proof. apply ReplaceAllString_empty, clean_match_progressive. Qed.

(** Induction over a value the way [cleanSetParameters] goes through it:
    one byte where the expression does not match, two where it does. *)
Lemma clean_ind (P : string → Prop) :
  P "" →
  (∀ c s, clean_match (String c s) = None → P s → P (String c s)) →
  (∀ c rest, c ≠ backslash → P rest → P (String c (String comma rest))) →
  ∀ s, P s.
Proof.
  intros Hnil Hcopy Hmatch s.
  remember (String.length s) as n eqn:Hn. revert s Hn.
  induction n as [n IH] using lt_wf_ind. intros s ->.
  destruct s as [|c s]; [done|].
  destruct (clean_match (String c s)) as [[out rest]|] eqn:E.
  - rewrite clean_match_cons in E. destruct s as [|d s']; [done|].
    destruct (plain_then_comma c d) eqn:Ep; [|done].
    injection E as _ <-. unfold plain_then_comma in Ep.
    apply andb_true_iff in Ep as [Hc Hd].
    apply negb_true_iff, Ascii.eqb_neq in Hc. apply Ascii.eqb_eq in Hd as ->.
    apply Hmatch; [done|]. apply (IH (String.length s')); [simpl; lia | done].
  - apply Hcopy; [done|]. apply (IH (String.length s)); [simpl; lia | done].
Qed.

Lemma clean_first_byte (s : string) :
  first_byte (cleanSetParameters s) = first_byte s.
Proof.
  destruct s as [|c s]; [by rewrite clean_nil|].
  destruct (clean_match (String c s)) as [[out rest]|] eqn:E.
  - rewrite clean_match_cons in E. destruct s as [|d s']; [done|].
    destruct (plain_then_comma c d) eqn:Ep; [|done].
    injection E as <- <-. unfold plain_then_comma in Ep.
    apply andb_true_iff in Ep as [Hc Hd].
    apply negb_true_iff, Ascii.eqb_neq in Hc. apply Ascii.eqb_eq in Hd as ->.
    by rewrite clean_escape.
  - by rewrite clean_copy.
Qed.

Lemma clean_match_None (c : ascii) (s : string) :
  clean_match (String c s) = None →
  match first_byte s with
  | Some d => plain_then_comma c d = false
  | None => True
  end.
Proof.
  rewrite clean_match_cons. destruct s as [|d s']; [done|]. simpl.
  by destruct (plain_then_comma c d).
Qed.

Lemma unescaped_comma_cons (c : ascii) (s : string) :
  unescaped_comma (String c s) =
    match first_byte s with
    | Some d => plain_then_comma c d
    | None => false
    end || unescaped_comma s.
Proof. by destruct s. Qed.

Lemma comma_after_plain_cons (c : ascii) (s : string) :
  comma_after_plain (String c s) =
    match first_byte s with
    | Some d => plain_then_comma c d && negb (Ascii.eqb c comma)
    | None => false
    end || comma_after_plain s.
Proof. by destruct s. Qed.

Lemma unescape_cons (c : ascii) (s : string) :
  unescape (String c s) =
    if Ascii.eqb c backslash &&
       match first_byte s with Some d => Ascii.eqb d comma | None => false end
    then unescape s else String c (unescape s).
Proof.
  destruct s as [|d s']; [|done]. simpl. by rewrite andb_false_r.
Qed.

Lemma clean_grows (s : string) :
  String.length s ≤ String.length (cleanSetParameters s) ∧
  (unescaped_comma s = true →
   String.length s < String.length (cleanSetParameters s)).
Proof.
  induction s as [| c s Hm [IH1 IH2] | c rest Hc [IH1 IH2]] using clean_ind.
  - rewrite clean_nil. split; [done | discriminate].
  - rewrite clean_copy by done. simpl String.length. split; [lia|].
    rewrite unescaped_comma_cons. apply clean_match_None in Hm.
    destruct (first_byte s) as [d|]; [rewrite Hm|]; simpl orb;
      intros H; apply IH2 in H; lia.
  - rewrite clean_escape by done. simpl String.length. split; lia.
Qed.

(** X5: [cleanSetParameters] returns its argument as it is exactly when no
    comma in it follows a byte other than a backslash. *)
Theorem cleanSetParameters_fixed_point (s : string) :
  cleanSetParameters s = s ↔ unescaped_comma s = false.
Proof.
  split.
  - intros E. destruct (unescaped_comma s) eqn:Hu; [|done].
    apply clean_grows in Hu. rewrite E in Hu. lia.
  - induction s as [|c s IH]; intros Hu; [apply clean_nil|].
    rewrite unescaped_comma_cons in Hu.
    apply orb_false_iff in Hu as [Hhead Hu].
    rewrite clean_copy; [by rewrite IH|].
    rewrite clean_match_cons. destruct s as [|d s']; [done|].
    simpl in Hhead. by rewrite Hhead.
Qed.

(** X6: In the result of [cleanSetParameters] no comma follows a byte other
    than a backslash or a comma: a comma that is left without a backslash
    is the first byte or follows a comma. *)
Theorem cleanSetParameters_escapes_after_plain (s : string) :
  comma_after_plain (cleanSetParameters s) = false.
Proof.
  induction s as [| c s Hm IH | c rest Hc IH] using clean_ind.
  - by rewrite clean_nil.
  - rewrite clean_copy by done. rewrite comma_after_plain_cons, IH.
    rewrite clean_first_byte. apply clean_match_None in Hm.
    destruct (first_byte s) as [d|]; [by rewrite Hm | done].
  - rewrite clean_escape by done.
    rewrite !comma_after_plain_cons, IH. simpl first_byte.
    apply Ascii.eqb_neq in Hc.
    unfold plain_then_comma. rewrite Hc, !Ascii.eqb_refl. simpl.
    destruct (first_byte (cleanSetParameters rest)) as [d|]; [|done].
    by rewrite andb_false_r.
Qed.

(** X7: [cleanSetParameters] only puts backslashes in front of commas: taking
    out the backslashes that stand in front of a comma gives the same for
    the result as for the value. *)
Theorem cleanSetParameters_unescape (s : string) :
  unescape (cleanSetParameters s) = unescape s.
Proof.
  induction s as [| c s Hm IH | c rest Hc IH] using clean_ind.
  - by rewrite clean_nil.
  - rewrite clean_copy by done.
    by rewrite !unescape_cons, clean_first_byte, IH.
  - rewrite clean_escape by done.
    apply Ascii.eqb_neq in Hc.
    rewrite (unescape_cons c), Hc. simpl andb. cbv iota.
    rewrite (unescape_cons backslash). simpl first_byte.
    rewrite !Ascii.eqb_refl. simpl andb. cbv iota.
    rewrite (unescape_cons comma (cleanSetParameters rest)).
    rewrite (unescape_cons c (String comma rest)), Hc. simpl andb. cbv iota.
    rewrite (unescape_cons comma rest).
    change (Ascii.eqb comma backslash) with false. simpl andb. cbv iota.
    by rewrite IH.
Qed.

(** ** writeToTmp on every path *)

Section WriteToTmp.

Context (os : OS).

Lemma writeToTmp_outcome (data : string) (w : World) :
  (∃ e, (writeToTmp os data w).1 = ("", None, Some e) ∧
     launched (writeToTmp os data w).2 = launched w ∧
     environ (writeToTmp os data w).2 = environ w ∧
     ∀ p, fs w !! p = None → fs (writeToTmp os data w).2 !! p = None) ∨
  (∃ name, Str.mem "/" name = true ∧ fs w !! name = None ∧
     writeToTmp os data w =
       ((name, Some (NewCloser (RemoveAll name)), None),
        {| fs := <[name := Regular data]> (fs w); environ := environ w;
           seed := seed w; created := created w ++ [name];
           launched := launched w |})).
Proof.
  destruct (create_temp_cases os (Regular "") "open" "" "" w)
    as [[e He] | (name & Hslash & Hfree & He)].
  - left. exists e. unfold writeToTmp, TempFile. go_unfold. simpl.
    rewrite He. simpl. done.
  - assert (Hne : name ≠ "") by by apply slash_nonempty.
    unfold writeToTmp, TempFile. go_unfold. simpl. rewrite He. simpl.
    unfold WriteFile. destruct (write_fault os _ name data) as [part|]; simpl.
    + left. eexists.
      destruct (RemoveAll name _) as [r w2] eqn:Er. simpl.
      match type of Er with RemoveAll _ ?w0 = _ =>
        assert (Hw2 : w2 = (RemoveAll name w0).2) by (by rewrite Er);
        destruct (RemoveAll_rest name w0) as (Henv & _ & _ & Hla) end.
      rewrite Hw2. split; [done|]. split; [by rewrite Hla|].
      split; [by rewrite Henv|].
      intros p Hp. destruct (below name p) eqn:Hb.
      * by apply RemoveAll_lookup_below.
      * rewrite RemoveAll_lookup_other by done. simpl.
        assert (name ≠ p) by (intros ->; by rewrite below_refl in Hb).
        by rewrite !lookup_insert_ne.
    + right. exists name. split; [done|]. split; [done|].
      unfold set_fs. simpl. by rewrite insert_insert_eq.
Qed.

(** X8: When [writeToTmp] returns no error, it returns the name of a file
    that did not exist before and now holds exactly the bytes, every other
    path being as it was, together with a closer; the closer returns no
    error and removes the file, so that every path that is not below the
    name of the file is then as it was before the call. *)
Theorem writeToTmp_success (data : string) (w : World) :
  (writeToTmp os data w).1.2 = None →
  ∃ name closer,
    (writeToTmp os data w).1 = (name, Some closer, None) ∧
    fs w !! name = None ∧
    fs (writeToTmp os data w).2 !! name = Some (Regular data) ∧
    (∀ q, q ≠ name → fs (writeToTmp os data w).2 !! q = fs w !! q) ∧
    (closer (writeToTmp os data w).2).1 = None ∧
    (∀ q, Str.has_prefix (name +:+ "/") q = false →
       fs (closer (writeToTmp os data w).2).2 !! q = fs w !! q).
Proof.
  intros Hok.
  destruct (writeToTmp_outcome data w)
    as [(e & He & _) | (name & Hslash & Hfree & He)];
    rewrite He in Hok |- *; [done|]. clear Hok.
  assert (Hne : name ≠ "") by by apply slash_nonempty.
  exists name, (NewCloser (RemoveAll name)). simpl.
  split; [done|]. split; [done|].
  split; [apply lookup_insert_eq|].
  split; [intros q Hq; by apply lookup_insert_ne|].
  unfold NewCloser. split; [apply RemoveAll_err|].
  intros q Hq. destruct (decide (q = name)) as [-> | Hqn].
  - rewrite Hfree. apply RemoveAll_lookup_below; [done | apply below_refl].
  - rewrite RemoveAll_lookup_other.
    + simpl. by apply lookup_insert_ne.
    + unfold below. rewrite Hq. apply String.eqb_neq in Hqn. by rewrite Hqn.
Qed.

(** X9: When [writeToTmp] returns an error, whatever failed, it returns the
    empty name and no closer, it has launched nothing, and it leaves no
    new path behind: a path that was free before the call is free after
    it. *)
Theorem writeToTmp_failure (data : string) (w : World) (e : error) :
  (writeToTmp os data w).1.2 = Some e →
  (writeToTmp os data w).1 = ("", None, Some e) ∧
  launched (writeToTmp os data w).2 = launched w ∧
  ∀ p, fs w !! p = None → fs (writeToTmp os data w).2 !! p = None.
Proof.
  intros Herr.
  destruct (writeToTmp_outcome data w)
    as [(e' & He & Hla & _ & Hfree) | (name & _ & _ & He)].
  - rewrite He in Herr. simpl in Herr. injection Herr as ->. done.
  - rewrite He in Herr. done.
Qed.

End WriteToTmp.

Lemma writeToTmp_success_witness :
  ∃ name closer,
    (writeToTmp quiet_os "KEY" start).1 = (name, Some closer, None) ∧
    fs (writeToTmp quiet_os "KEY" start).2 !! name = Some (Regular "KEY") ∧
    fs (closer (writeToTmp quiet_os "KEY" start).2).2 !! "/tmp" = fs start !! "/tmp".
Proof.
  destruct (writeToTmp_success quiet_os "KEY" start)
    as (name & closer & Hr & Hfree & Hdata & _ & _ & Hback); [reflexivity|].
  exists name, closer. split; [exact Hr|]. split; [exact Hdata|].
  apply Hback. vm_compute in Hr. injection Hr as <- _. reflexivity.
Defined.

Lemma writeToTmp_failure_witness :
  (writeToTmp full_disk_os "KEY" start).1
    = ("", None, Some (PathError "write" "/tmp/0")) ∧
  launched (writeToTmp full_disk_os "KEY" start).2 = launched start ∧
  ∀ p, fs start !! p = None → fs (writeToTmp full_disk_os "KEY" start).2 !! p = None.
Proof. apply (writeToTmp_failure full_disk_os "KEY" start). reflexivity. Defined.

(** ** Cmd.Fetch on every path *)

Section FetchOutcome.

Context (os : OS).

Lemma Fetch_from_outcome (c : Cmd) (repo chartName : string) (creds : Creds)
    (args : list string) (w : World) :
  (∃ e, (Fetch_from os c repo chartName creds args w).1 = ("", Some e) ∧
     launched (Fetch_from os c repo chartName creds args w).2 = launched w ∧
     ∀ p, fs w !! p = None →
       fs (Fetch_from os c repo chartName creds args w).2 !! p = None) ∨
  (∃ certPath keyPath w0,
     environ w0 = environ w ∧ launched w0 = launched w ∧
     (nonempty (CertData creds) = true →
      fs w0 !! certPath = Some (Regular (CertData creds))) ∧
     (nonempty (KeyData creds) = true →
      fs w0 !! keyPath = Some (Regular (KeyData creds))) ∧
     (∀ q, (nonempty (CertData creds) = false ∨ q ≠ certPath) →
           (nonempty (KeyData creds) = false ∨ q ≠ keyPath) →
           fs w0 !! q = fs w !! q) ∧
     Fetch_from os c repo chartName creds args w =
       ((run os c
           (args ++
            flag_if (nonempty (CertData creds)) "--cert-file" certPath ++
            flag_if (nonempty (KeyData creds)) "--key-file" keyPath ++
            ["--repo"; repo; chartName]) w0).1,
        remove_if (nonempty (CertData creds)) certPath
          (remove_if (nonempty (KeyData creds)) keyPath
             (run os c
                (args ++
                 flag_if (nonempty (CertData creds)) "--cert-file" certPath ++
                 flag_if (nonempty (KeyData creds)) "--key-file" keyPath ++
                 ["--repo"; repo; chartName]) w0).2))).
Proof.
  unfold Fetch_from. go_unfold.
  destruct (nonempty (CertData creds)) eqn:Ec; simpl.
  - destruct (writeToTmp_outcome os (CertData creds) w)
      as [(e & He & Hla & _ & Hfree) | (cert & Hslash & Hcfree & He)].
    { left. exists e.
      destruct (writeToTmp os (CertData creds) w) as [[[f1 cl1] err1] w1].
      simpl in *. injection He as -> -> ->. simpl. done. }
    rewrite He. simpl.
    assert (Hcne : cert ≠ "") by by apply slash_nonempty.
    destruct (nonempty (KeyData creds)) eqn:Ek; simpl.
    + match goal with |- context [writeToTmp os (KeyData creds) ?w1] =>
        destruct (writeToTmp_outcome os (KeyData creds) w1)
          as [(e & He2 & Hla2 & _ & Hfree2) | (key & Hslash2 & Hkfree & He2)]
      end.
      { left. exists e.
        match goal with |- context [writeToTmp os (KeyData creds) ?w1] =>
          destruct (writeToTmp os (KeyData creds) w1) as [[[f2 cl2] err2] w2]
        end.
        simpl in *. injection He2 as -> -> ->. simpl. unfold NewCloser.
        destruct (RemoveAll_rest cert w2) as (_ & _ & _ & Hla3).
        split; [done|]. split; [by rewrite Hla3, Hla2|].
        intros p Hp. destruct (decide (p = cert)) as [-> | Hpc].
        - apply RemoveAll_lookup_below; [done | apply below_refl].
        - apply RemoveAll_lookup_None, Hfree2. by rewrite lookup_insert_ne. }
      rewrite He2. simpl in *.
      assert (Hck : key ≠ cert).
      { intros ->. by rewrite lookup_insert_eq in Hkfree. }
      match goal with |- context [run os c _ ?W] =>
        right; exists cert, key, W end.
      split; [| split; [| split; [| split; [| split]]]];
        [| | | | | unfold NewCloser, remove_if; simpl;
                   rewrite <- ?app_assoc; simpl;
                   destruct (run os c _ _) as [r w3]; reflexivity];
        simpl; try done.
      * intros _. by rewrite lookup_insert_ne, lookup_insert_eq.
      * intros _. by rewrite lookup_insert_eq.
      * intros q [? | Hq1] [? | Hq2]; try done.
        by rewrite !lookup_insert_ne.
    + match goal with |- context [run os c _ ?W] =>
        right; exists cert, "", W end.
      split; [| split; [| split; [| split; [| split]]]];
        [| | | | | unfold NewCloser, remove_if; simpl;
                   rewrite <- ?app_assoc; simpl;
                   destruct (run os c _ _) as [r w3]; reflexivity];
        simpl; try done.
      * intros _. by rewrite lookup_insert_eq.
      * intros q [? | Hq1] _; try done. by rewrite lookup_insert_ne.
  - destruct (nonempty (KeyData creds)) eqn:Ek; simpl.
    + destruct (writeToTmp_outcome os (KeyData creds) w)
        as [(e & He & Hla & _ & Hfree) | (key & Hslash & Hkfree & He)].
      { left. exists e.
        destruct (writeToTmp os (KeyData creds) w) as [[[f1 cl1] err1] w1].
        simpl in *. injection He as -> -> ->. simpl. done. }
      rewrite He. simpl.
      match goal with |- context [run os c _ ?W] =>
        right; exists "", key, W end.
      split; [| split; [| split; [| split; [| split]]]];
        [| | | | | unfold NewCloser, remove_if; simpl;
                   rewrite <- ?app_assoc; simpl;
                   destruct (run os c _ _) as [r w3]; reflexivity];
        simpl; try done.
      * intros _. by rewrite lookup_insert_eq.
      * intros q _ [? | Hq2]; try done. by rewrite lookup_insert_ne.
    + right. exists "", "", w. unfold remove_if. simpl.
      repeat split; try done. by destruct (run os c _ w).
Qed.

(** X10: [Fetch] on every path.  It fails before it launches anything, with an
    error and the empty output, and then leaves no new path on disk; or
    it calls [run] once, in a world in which the files named after
    [--cert-file] and [--key-file] hold exactly the bytes of the
    certificate and of the key and every other path is as it was; it
    returns what [run] returns, and what it leaves is what the tool has
    left, without these files. *)
Theorem Fetch_outcome (c : Cmd) (repo chartName version destination : string)
    (creds : Creds) (w : World) :
  (∃ e, (Fetch os c repo chartName version destination creds w).1
          = ("", Some e) ∧
     launched (Fetch os c repo chartName version destination creds w).2
       = launched w ∧
     ∀ p, fs w !! p = None →
       fs (Fetch os c repo chartName version destination creds w).2 !! p
       = None) ∨
  (∃ certPath keyPath w0,
     environ w0 = environ w ∧ launched w0 = launched w ∧
     (nonempty (CertData creds) = true →
      fs w0 !! certPath = Some (Regular (CertData creds))) ∧
     (nonempty (KeyData creds) = true →
      fs w0 !! keyPath = Some (Regular (KeyData creds))) ∧
     (∀ q, (nonempty (CertData creds) = false ∨ q ≠ certPath) →
           (nonempty (KeyData creds) = false ∨ q ≠ keyPath) →
           fs w0 !! q = fs w !! q) ∧
     Fetch os c repo chartName version destination creds w =
       ((run os c
           ([pullCommand c; "--destination"; destination] ++
            flag_if (nonempty version) "--version" version ++
            inline_cred_flags creds ++
            flag_if (nonempty (CertData creds)) "--cert-file" certPath ++
            flag_if (nonempty (KeyData creds)) "--key-file" keyPath ++
            ["--repo"; repo; chartName]) w0).1,
        remove_if (nonempty (CertData creds)) certPath
          (remove_if (nonempty (KeyData creds)) keyPath
             (run os c
                ([pullCommand c; "--destination"; destination] ++
                 flag_if (nonempty version) "--version" version ++
                 inline_cred_flags creds ++
                 flag_if (nonempty (CertData creds)) "--cert-file" certPath ++
                 flag_if (nonempty (KeyData creds)) "--key-file" keyPath ++
                 ["--repo"; repo; chartName]) w0).2))).
Proof.
  rewrite Fetch_eq.
  destruct (Fetch_from_outcome c repo chartName creds
              ([pullCommand c; "--destination"; destination] ++
               flag_if (nonempty version) "--version" version ++
               inline_cred_flags creds) w)
    as [Hfail | (certPath & keyPath & w0 & H1 & H2 & H3 & H4 & H5 & H6)];
    [by left | right].
  exists certPath, keyPath, w0. rewrite H6, <- !app_assoc. done.
Qed.

End FetchOutcome.

(** ** Cmd.RepoAdd on every path *)

Section RepoAddOutcome.

Context (os : OS).

Lemma RepoAdd_eq (c : Cmd) (name url : string) (opts : Creds) :
  RepoAdd os c name url opts =
  func (
    '(tmp, err) ← call (TempDir os "" "helm");
    ifErr err (λ e, Return ("", Some e));;
    defer (λ w, (RemoveAll tmp w).2);;
    RepoAdd_from os c name url opts (["repo"; "add"] ++ inline_cred_flags opts)).
Proof.
  unfold RepoAdd, RepoAdd_from, secret_arg, inline_cred_flags, flag_if.
  by destruct (nonempty (Username opts)), (nonempty (Password opts)),
    (nonempty (CAPath opts)).
Qed.

Lemma RepoAdd_run (c : Cmd) (name url : string) (opts : Creds) (w : World) :
  RepoAdd os c name url opts w =
  match create_temp os Directory "mkdir" "" "helm" w with
  | ((_, Some e), w1) => (("", Some e), w1)
  | ((tmp, None), w1) =>
      let '(x, f) :=
        RepoAdd_from os c name url opts
          (["repo"; "add"] ++ inline_cred_flags opts)
          {| world := w1; deferred := [λ w, (RemoveAll tmp w).2] |} in
      (match x with inl r | inr r => r end,
       foldl (λ w' d, d w') (world f) (deferred f))
  end.
Proof.
  rewrite RepoAdd_eq.
  generalize (RepoAdd_from os c name url opts
                (["repo"; "add"] ++ inline_cred_flags opts)).
  intros g. unfold func, TempDir. go_unfold. simpl.
  by destruct (create_temp os Directory "mkdir" "" "helm" w) as [[tmp [e|]] w1].
Qed.

(** The step either returns an error, having launched nothing and
    touched no entry that existed, or goes on with the arguments, the
    new file holding the secret. *)
Lemma secret_arg_outcome (data flag : string) (args : list string) (w : World)
    (ds : list (World → World)) :
  (∃ e w', secret_arg os data flag args {| world := w; deferred := ds |}
             = (inr ("", Some e), {| world := w'; deferred := ds |}) ∧
     launched w' = launched w ∧ environ w' = environ w ∧
     ∀ q n, fs w !! q = Some n → fs w' !! q = Some n) ∨
  (∃ file w', secret_arg os data flag args {| world := w; deferred := ds |}
             = (inl (args ++ flag_if (nonempty data) flag file),
                {| world := w'; deferred := ds |}) ∧
     launched w' = launched w ∧ environ w' = environ w ∧
     (nonempty data = true →
      fs w !! file = None ∧ fs w' !! file = Some (Regular data)) ∧
     ∀ q, nonempty data = false ∨ q ≠ file → fs w' !! q = fs w !! q).
Proof.
  unfold secret_arg. destruct (nonempty data) eqn:Ed.
  - go_unfold. simpl. unfold TempFile.
    destruct (create_temp_cases os (Regular "") "open" "" "helm" w)
      as [[e He] | (file & Hslash & Hfree & He)]; rewrite He; simpl.
    { left. exists e, w. done. }
    unfold Write. simpl. rewrite lookup_insert_eq.
    destruct (write_fault os _ file data) as [part|]; simpl.
    + left. eexists _, _. split; [done|]. simpl. split; [done|]. split; [done|].
      intros q n Hq. assert (file ≠ q) by (intros ->; congruence).
      by rewrite !lookup_insert_ne.
    + right. eexists file, _. split; [done|]. simpl.
      split; [done|]. split; [done|]. split.
      * intros _. split; [done|]. by rewrite lookup_insert_eq.
      * intros q [? | Hq]; [done|]. by rewrite !lookup_insert_ne.
  - right. exists "", w. rewrite app_nil_r. split; [done|].
    repeat split; try done.
Qed.

Lemma RepoAdd_from_outcome (c : Cmd) (name url : string) (opts : Creds)
    (args : list string) (w : World) (ds : list (World → World)) :
  (∃ e w', RepoAdd_from os c name url opts args {| world := w; deferred := ds |}
             = (inr ("", Some e), {| world := w'; deferred := ds |}) ∧
     launched w' = launched w ∧
     ∀ q n, fs w !! q = Some n → fs w' !! q = Some n) ∨
  (∃ certFile keyFile w0,
     environ w0 = environ w ∧ launched w0 = launched w ∧
     (nonempty (CertData opts) = true →
      fs w !! certFile = None ∧
      fs w0 !! certFile = Some (Regular (CertData opts))) ∧
     (nonempty (KeyData opts) = true →
      fs w !! keyFile = None ∧
      fs w0 !! keyFile = Some (Regular (KeyData opts))) ∧
     (∀ q, (nonempty (CertData opts) = false ∨ q ≠ certFile) →
           (nonempty (KeyData opts) = false ∨ q ≠ keyFile) →
           fs w0 !! q = fs w !! q) ∧
     RepoAdd_from os c name url opts args {| world := w; deferred := ds |} =
       (inr (run os c
               (args ++
                flag_if (nonempty (CertData opts)) "--cert-file" certFile ++
                flag_if (nonempty (KeyData opts)) "--key-file" keyFile ++
                [name; url]) w0).1,
        {| world :=
             (run os c
                (args ++
                 flag_if (nonempty (CertData opts)) "--cert-file" certFile ++
                 flag_if (nonempty (KeyData opts)) "--key-file" keyFile ++
                 [name; url]) w0).2;
           deferred := ds |})).
Proof.
  unfold RepoAdd_from. go_unfold.
  destruct (secret_arg_outcome (CertData opts) "--cert-file" args w ds)
    as [(e & w1 & He & Hla & Hen & Hfs)
       | (certFile & w1 & He & Hla & Hen & Hnew & Hfs)];
    rewrite He; cbv beta iota.
  { left. exists e, w1. done. }
  destruct (secret_arg_outcome (KeyData opts) "--key-file"
              (args ++ flag_if (nonempty (CertData opts)) "--cert-file" certFile)
              w1 ds)
    as [(e & w2 & He2 & Hla2 & Hen2 & Hfs2)
       | (keyFile & w2 & He2 & Hla2 & Hen2 & Hnew2 & Hfs2)];
    rewrite He2; cbv beta iota.
  { left. exists e, w2. split; [done|]. split; [congruence|].
    intros q n Hq. apply Hfs2. destruct (nonempty (CertData opts)) eqn:Ec.
    - destruct (Hnew eq_refl) as [Hfree _].
      rewrite Hfs; [done | right; intros ->; congruence].
    - rewrite Hfs; [done | by left]. }
  right. exists certFile, keyFile, w2.
  split; [congruence|]. split; [congruence|]. split; [| split; [| split]].
  - intros Ec. destruct (Hnew Ec) as [Hfree Hin]. split; [done|].
    rewrite Hfs2; [done|]. destruct (nonempty (KeyData opts)) eqn:Ek; [|by left].
    right. intros ->. destruct (Hnew2 eq_refl) as [Hfree2 _]. congruence.
  - intros Ek. destruct (Hnew2 Ek) as [Hfree2 Hin2]. split; [|done].
    destruct (nonempty (CertData opts)) eqn:Ec.
    + destruct (Hnew eq_refl) as [Hfree Hin].
      rewrite <- Hfs; [done|]. right. intros ->. congruence.
    + rewrite <- Hfs; [done | by left].
  - intros q Hq1 Hq2. by rewrite Hfs2, Hfs.
  - simpl. rewrite <- !app_assoc. by destruct (run os c _ w2).
Qed.

(** The step [secret_arg] returns the error of [secret_file], or goes
    on with the arguments, the new file holding the secret. *)
Lemma secret_arg_file (data flag : string) (args : list string) (w : World)
    (ds : list (World → World)) :
  launched (secret_file os data w).2 = launched w ∧
  environ (secret_file os data w).2 = environ w ∧
  match (secret_file os data w).1 with
  | Some e =>
      secret_arg os data flag args {| world := w; deferred := ds |}
      = (inr ("", Some e),
         {| world := (secret_file os data w).2; deferred := ds |})
  | None =>
      ∃ file,
        secret_arg os data flag args {| world := w; deferred := ds |}
        = (inl (args ++ flag_if (nonempty data) flag file),
           {| world := (secret_file os data w).2; deferred := ds |}) ∧
        (nonempty data = true →
         fs w !! file = None ∧
         fs (secret_file os data w).2 !! file = Some (Regular data)) ∧
        ∀ q, nonempty data = false ∨ q ≠ file →
          fs (secret_file os data w).2 !! q = fs w !! q
  end.
Proof.
  unfold secret_file, secret_arg. destruct (nonempty data) eqn:Ed.
  - go_unfold. simpl. unfold TempFile.
    destruct (create_temp_cases os (Regular "") "open" "" "helm" w)
      as [[e He] | (file & Hslash & Hfree & He)]; rewrite He; simpl; [done|].
    unfold Write. simpl. rewrite lookup_insert_eq.
    destruct (write_fault os _ file data) as [part|]; simpl; [done|].
    split; [done|]. split; [done|]. exists file. split; [done|]. split.
    + intros _. split; [done|]. by rewrite lookup_insert_eq.
    + intros q [? | Hq]; [done|]. by rewrite !lookup_insert_ne.
  - simpl. split; [done|]. split; [done|]. exists "". rewrite app_nil_r.
    split; [done|]. split; [done|]. done.
Qed.

Lemma RepoAdd_from_prepared (c : Cmd) (name url : string) (opts : Creds)
    (args : list string) (w : World) (ds : list (World → World)) :
  match RepoAdd_preparation os opts w with
  | Some e =>
      ∃ w', RepoAdd_from os c name url opts args {| world := w; deferred := ds |}
            = (inr ("", Some e), {| world := w'; deferred := ds |}) ∧
        launched w' = launched w
  | None =>
      ∃ certFile keyFile w0,
        environ w0 = environ w ∧ launched w0 = launched w ∧
        (nonempty (CertData opts) = true →
         fs w !! certFile = None ∧
         fs w0 !! certFile = Some (Regular (CertData opts))) ∧
        (nonempty (KeyData opts) = true →
         fs w !! keyFile = None ∧
         fs w0 !! keyFile = Some (Regular (KeyData opts))) ∧
        (∀ q, (nonempty (CertData opts) = false ∨ q ≠ certFile) →
              (nonempty (KeyData opts) = false ∨ q ≠ keyFile) →
              fs w0 !! q = fs w !! q) ∧
        RepoAdd_from os c name url opts args {| world := w; deferred := ds |} =
          (inr (run os c
                  (args ++
                   flag_if (nonempty (CertData opts)) "--cert-file" certFile ++
                   flag_if (nonempty (KeyData opts)) "--key-file" keyFile ++
                   [name; url]) w0).1,
           {| world :=
                (run os c
                   (args ++
                    flag_if (nonempty (CertData opts)) "--cert-file" certFile ++
                    flag_if (nonempty (KeyData opts)) "--key-file" keyFile ++
                    [name; url]) w0).2;
              deferred := ds |})
  end.
Proof.
  unfold RepoAdd_preparation, RepoAdd_from. go_unfold.
  destruct (secret_arg_file (CertData opts) "--cert-file" args w ds)
    as (Hl1 & He1 & H1).
  destruct (secret_file os (CertData opts) w) as [[e|] w1]; cbn [fst snd] in *.
  - rewrite H1. by exists w1.
  - destruct H1 as (certFile & H1 & Hnew & Hfs). rewrite H1. cbv beta iota.
    destruct (secret_arg_file (KeyData opts) "--key-file"
                (args ++ flag_if (nonempty (CertData opts)) "--cert-file" certFile)
                w1 ds) as (Hl2 & He2 & H2).
    destruct (secret_file os (KeyData opts) w1) as [[e|] w2]; cbn [fst snd] in *.
    + rewrite H2. exists w2. split; [done | congruence].
    + destruct H2 as (keyFile & H2 & Hnew2 & Hfs2). rewrite H2. cbv beta iota.
      exists certFile, keyFile, w2.
      split; [congruence|]. split; [congruence|]. split; [| split; [| split]].
      * intros Ec. destruct (Hnew Ec) as [Hfree Hin]. split; [done|].
        rewrite Hfs2; [done|].
        destruct (nonempty (KeyData opts)) eqn:Ek; [|by left].
        right. intros ->. destruct (Hnew2 eq_refl) as [Hfree2 _]. congruence.
      * intros Ek. destruct (Hnew2 Ek) as [Hfree2 Hin2]. split; [|done].
        destruct (nonempty (CertData opts)) eqn:Ec.
        -- destruct (Hnew eq_refl) as [Hfree Hin].
           rewrite <- Hfs; [done|]. right. intros ->. congruence.
        -- rewrite <- Hfs; [done | by left].
      * intros q Hq1 Hq2. by rewrite Hfs2, Hfs.
      * simpl. rewrite <- !app_assoc. by destruct (run os c _ w2).
Qed.

(** [RepoAdd] by the outcome of its steps: the making of the directory,
    then the writing of the secrets, then [run]. *)
Lemma RepoAdd_prepared (c : Cmd) (name url : string) (opts : Creds) (w : World) :
  match TempDir os "" "helm" w with
  | ((_, Some e), _) => RepoAdd os c name url opts w = (("", Some e), w)
  | ((tmp, None), w1) =>
      tmp ≠ "" ∧ fs w !! tmp = None ∧ fs w1 = <[tmp := Directory]> (fs w) ∧
      environ w1 = environ w ∧ launched w1 = launched w ∧
      match RepoAdd_preparation os opts w1 with
      | Some e =>
          ∃ w', RepoAdd os c name url opts w
                = (("", Some e), (RemoveAll tmp w').2) ∧
            launched w' = launched w
      | None =>
          ∃ certFile keyFile w0,
            environ w0 = environ w ∧ launched w0 = launched w ∧
            (nonempty (CertData opts) = true →
             fs w1 !! certFile = None ∧
             fs w0 !! certFile = Some (Regular (CertData opts))) ∧
            (nonempty (KeyData opts) = true →
             fs w1 !! keyFile = None ∧
             fs w0 !! keyFile = Some (Regular (KeyData opts))) ∧
            (∀ q, (nonempty (CertData opts) = false ∨ q ≠ certFile) →
                  (nonempty (KeyData opts) = false ∨ q ≠ keyFile) →
                  fs w0 !! q = fs w1 !! q) ∧
            RepoAdd os c name url opts w =
              ((run os c
                  (["repo"; "add"] ++ inline_cred_flags opts ++
                   flag_if (nonempty (CertData opts)) "--cert-file" certFile ++
                   flag_if (nonempty (KeyData opts)) "--key-file" keyFile ++
                   [name; url]) w0).1,
               (RemoveAll tmp
                  (run os c
                     (["repo"; "add"] ++ inline_cred_flags opts ++
                      flag_if (nonempty (CertData opts)) "--cert-file" certFile ++
                      flag_if (nonempty (KeyData opts)) "--key-file" keyFile ++
                      [name; url]) w0).2).2)
      end
  end.
Proof.
  rewrite RepoAdd_run. unfold TempDir.
  destruct (create_temp_cases os Directory "mkdir" "" "helm" w)
    as [[e He] | (tmp & Hslash & Hfree & He)]; rewrite He; cbv beta iota;
    [done|].
  split; [by apply slash_nonempty|]. split; [done|]. split; [done|].
  split; [done|]. split; [done|].
  match goal with |- context [RepoAdd_from os c name url opts ?a
                                {| world := ?w1; deferred := ?ds |}] =>
    pose proof (RepoAdd_from_prepared c name url opts a w1 ds) as H;
    destruct (RepoAdd_preparation os opts w1) as [e|]
  end.
  - destruct H as (w' & H & Hla). rewrite H. exists w'. done.
  - destruct H as (certFile & keyFile & w0 & Hen & Hla & Hc & Hk & Hq & H).
    rewrite H. exists certFile, keyFile, w0.
    split; [done|]. split; [done|]. split; [done|]. split; [done|].
    split; [done|]. simpl. done.
Qed.

(** X11: [RepoAdd] by the outcome of its steps.  When the temporary
    directory cannot be made, that error is returned and the world is as
    it was.  When it has been made, it is a new directory and, whatever
    follows, nothing is left at or below it when [RepoAdd] returns; when
    the file for the certificate or the key cannot be made or written,
    that error is returned and nothing has been launched; otherwise
    [run] is called once with [repo add], the credential flags,
    [--cert-file] and [--key-file] with the names of new files that hold
    exactly the certificate and the key, and last the name and the URL,
    and [RepoAdd] returns what [run] returns. *)
Theorem RepoAdd_outcome (c : Cmd) (name url : string) (opts : Creds) (w : World) :
  match TempDir os "" "helm" w with
  | ((_, Some e), _) => RepoAdd os c name url opts w = (("", Some e), w)
  | ((tmp, None), w1) =>
      fs w !! tmp = None ∧ fs w1 !! tmp = Some Directory ∧
      (∀ p, below tmp p = true →
         fs (RepoAdd os c name url opts w).2 !! p = None) ∧
      match RepoAdd_preparation os opts w1 with
      | Some e =>
          (RepoAdd os c name url opts w).1 = ("", Some e) ∧
          launched (RepoAdd os c name url opts w).2 = launched w
      | None =>
          ∃ certFile keyFile w0,
            environ w0 = environ w ∧ launched w0 = launched w ∧
            fs w0 !! tmp = Some Directory ∧
            (nonempty (CertData opts) = true →
             fs w !! certFile = None ∧
             fs w0 !! certFile = Some (Regular (CertData opts))) ∧
            (nonempty (KeyData opts) = true →
             fs w !! keyFile = None ∧
             fs w0 !! keyFile = Some (Regular (KeyData opts))) ∧
            RepoAdd os c name url opts w =
              ((run os c
                  (["repo"; "add"] ++ inline_cred_flags opts ++
                   flag_if (nonempty (CertData opts)) "--cert-file" certFile ++
                   flag_if (nonempty (KeyData opts)) "--key-file" keyFile ++
                   [name; url]) w0).1,
               (RemoveAll tmp
                  (run os c
                     (["repo"; "add"] ++ inline_cred_flags opts ++
                      flag_if (nonempty (CertData opts)) "--cert-file" certFile ++
                      flag_if (nonempty (KeyData opts)) "--key-file" keyFile ++
                      [name; url]) w0).2).2)
      end
  end.
Proof.
  pose proof (RepoAdd_prepared c name url opts w) as H.
  destruct (TempDir os "" "helm" w) as [[tmp [e|]] w1]; [exact H|].
  destruct H as (Hne & Hfree & Hfs & Hen1 & Hla1 & H).
  split; [done|]. split; [by rewrite Hfs, lookup_insert_eq|].
  destruct (RepoAdd_preparation os opts w1) as [e|].
  - destruct H as (w' & H & Hla). rewrite H. simpl.
    split; [intros p Hp; by apply RemoveAll_lookup_below|].
    split; [done|]. by destruct (RemoveAll_rest tmp w') as (_ & _ & _ & ->).
  - destruct H as (certFile & keyFile & w0 & Hen & Hla & Hc & Hk & Hq & H).
    rewrite H. simpl.
    split; [intros p Hp; by apply RemoveAll_lookup_below|].
    exists certFile, keyFile, w0.
    assert (Hold : ∀ q, fs w1 !! q = None → fs w !! q = None ∧ q ≠ tmp).
    { intros q Hq1. rewrite Hfs in Hq1.
      destruct (decide (tmp = q)) as [-> | Hd].
      - by rewrite lookup_insert_eq in Hq1.
      - rewrite lookup_insert_ne in Hq1 by done. split; [done | congruence]. }
    split; [done|]. split; [done|]. split; [| split; [| split]].
    + rewrite Hq, Hfs; [by rewrite lookup_insert_eq | |].
      * destruct (nonempty (CertData opts)); [|by left]. right.
        destruct (Hc eq_refl) as [Hx _]. apply Hold in Hx as [_ Hx]. congruence.
      * destruct (nonempty (KeyData opts)); [|by left]. right.
        destruct (Hk eq_refl) as [Hx _]. apply Hold in Hx as [_ Hx]. congruence.
    + intros Ec. destruct (Hc Ec) as [Hx Hy]. split; [|done]. by apply Hold.
    + intros Ek. destruct (Hk Ek) as [Hx Hy]. split; [|done]. by apply Hold.
    + done.
Qed.


End RepoAddOutcome.

(** ** Cmd.Close, and the operations after it *)

Section CloseThenOperations.

Context (os : OS).

(** [template] is one call of [run], in a world that differs from the
    given one in the random source only. *)
Lemma template_run (c : Cmd) (chartPath : string) (opts : TemplateOpts)
    (w : World) :
  ∃ ks ss fls w0,
    ks ≡ₚ map_to_list (Set_ opts) ∧ ss ≡ₚ map_to_list (SetString opts) ∧
    fls ≡ₚ map_to_list (SetFile opts) ∧
    fs w0 = fs w ∧ environ w0 = environ w ∧ launched w0 = launched w ∧
    template os c chartPath opts w
    = run os c (template_args c chartPath opts ks ss fls) w0.
Proof.
  unfold template, range. go_unfold. simpl.
  destruct (run os c _ _) as [r w3] eqn:Er. simpl.
  match type of Er with
    run _ _ (template_args _ _ _ ?ks ?ss ?fls) ?w0 = _ =>
      exists ks, ss, fls, w0
  end.
  split; [apply range_order_perm|]. split; [apply range_order_perm|].
  split; [apply range_order_perm|]. by rewrite Er.
Qed.

Lemma Fetch_prepared_run (c : Cmd)
    (repo chartName version destination : string) (creds : Creds) (w : World) :
  match Fetch_preparation os creds w with
  | Some e =>
      (Fetch os c repo chartName version destination creds w).1 = ("", Some e) ∧
      launched (Fetch os c repo chartName version destination creds w).2
        = launched w
  | None =>
      ∃ args w0,
        environ w0 = environ w ∧ launched w0 = launched w ∧
        (Fetch os c repo chartName version destination creds w).1
          = (run os c args w0).1 ∧
        launched (Fetch os c repo chartName version destination creds w).2
          = launched w ++ [command c args w]
  end.
Proof.
  rewrite Fetch_eq.
  pose proof (Fetch_from_prepared os c repo chartName creds
                ([pullCommand c; "--destination"; destination] ++
                 flag_if (nonempty version) "--version" version ++
                 inline_cred_flags creds) w) as H.
  destruct (Fetch_preparation os creds w) as [e|]; [exact H|].
  destruct H as (certPath & keyPath & w0 & _ & _ & Hen & Hla & Hr & Hl).
  eexists _, w0. split; [done|]. split; [done|]. split; [exact Hr | exact Hl].
Qed.

Lemma RepoAdd_prepared_run (c : Cmd) (name url : string) (opts : Creds)
    (w : World) :
  match TempDir os "" "helm" w with
  | ((_, Some e), _) => RepoAdd os c name url opts w = (("", Some e), w)
  | ((tmp, None), w1) =>
      match RepoAdd_preparation os opts w1 with
      | Some e =>
          (RepoAdd os c name url opts w).1 = ("", Some e) ∧
          launched (RepoAdd os c name url opts w).2 = launched w
      | None =>
          ∃ args w0,
            environ w0 = environ w ∧ launched w0 = launched w ∧
            (RepoAdd os c name url opts w).1 = (run os c args w0).1 ∧
            launched (RepoAdd os c name url opts w).2
              = launched w ++ [command c args w]
      end
  end.
Proof.
  pose proof (RepoAdd_prepared os c name url opts w) as H.
  destruct (TempDir os "" "helm" w) as [[tmp [e|]] w1]; [exact H|].
  destruct H as (_ & _ & _ & _ & _ & H).
  destruct (RepoAdd_preparation os opts w1) as [e|].
  - destruct H as (w' & H & Hla). rewrite H. simpl.
    split; [done|]. by destruct (RemoveAll_rest tmp w') as (_ & _ & _ & ->).
  - destruct H as (certFile & keyFile & w0 & Hen & Hla & _ & _ & _ & H).
    rewrite H. simpl. eexists _, w0.
    split; [done|]. split; [done|]. split; [done|].
    match goal with |- context [RemoveAll tmp ?w3] =>
      destruct (RemoveAll_rest tmp w3) as (_ & _ & _ & ->) end.
    rewrite run_launched, Hla. by rewrite (command_environ c _ w w0).
Qed.

(** C4 (amended): [Close] has no result to fail with; it removes what is
    at or below the home directory and leaves every other path, the
    environment and the launched processes as they are; a second
    [Close], or a [Close] when nothing is there any more, changes
    nothing.  The session keeps no record of having been closed and no
    operation is refused after [Close]: [Init] on a profile without the
    init step returns no error without launching anything; [Init] on a
    profile with the init step, [dependencyBuild], [inspectValues] and
    [template] are one call of [run] and return what it returns; [Fetch]
    and [RepoAdd] stop before they launch anything only when the
    preparation of their temporary directory or files fails, with that
    error, and otherwise call [run] once and return what it returns. *)
Theorem Close_then_operations (c : Cmd) (w : World) :
  Close c (Close c w) = Close c w ∧
  ((∀ p, below (helmHome c) p = true → fs w !! p = None) → Close c w = w) ∧
  (helmHome c ≠ "" →
   ∀ p, below (helmHome c) p = true → fs (Close c w) !! p = None) ∧
  (∀ p, below (helmHome c) p = false → fs (Close c w) !! p = fs w !! p) ∧
  (environ (Close c w) = environ w ∧ seed (Close c w) = seed w ∧
   created (Close c w) = created w ∧ launched (Close c w) = launched w) ∧
  (∀ args, launched (run os c args (Close c w)).2
           = launched w ++ [command c args w]) ∧
  (initSupported c = false →
   Init os c (Close c w) = (("", None), Close c w)) ∧
  (initSupported c = true →
   Init os c (Close c w)
   = run os c ["init"; "--client-only"; "--skip-refresh"] (Close c w)) ∧
  dependencyBuild os c (Close c w)
    = run os c ["dependency"; "build"] (Close c w) ∧
  (∀ values,
     inspectValues os c values (Close c w)
     = run os c [showCommand c; "values"; values] (Close c w)) ∧
  (∀ chartPath opts, ∃ ks ss fls w0,
     ks ≡ₚ map_to_list (Set_ opts) ∧ ss ≡ₚ map_to_list (SetString opts) ∧
     fls ≡ₚ map_to_list (SetFile opts) ∧
     fs w0 = fs (Close c w) ∧ environ w0 = environ w ∧
     launched w0 = launched w ∧
     template os c chartPath opts (Close c w)
     = run os c (template_args c chartPath opts ks ss fls) w0) ∧
  (∀ repo chartName version destination creds,
     match Fetch_preparation os creds (Close c w) with
     | Some e =>
         (Fetch os c repo chartName version destination creds (Close c w)).1
           = ("", Some e) ∧
         launched
           (Fetch os c repo chartName version destination creds (Close c w)).2
           = launched w
     | None =>
         ∃ args w0,
           environ w0 = environ w ∧ launched w0 = launched w ∧
           (Fetch os c repo chartName version destination creds (Close c w)).1
             = (run os c args w0).1 ∧
           launched
             (Fetch os c repo chartName version destination creds (Close c w)).2
             = launched w ++ [command c args w]
     end) ∧
  (∀ name url opts,
     match TempDir os "" "helm" (Close c w) with
     | ((_, Some e), _) =>
         RepoAdd os c name url opts (Close c w) = (("", Some e), Close c w)
     | ((tmp, None), w1) =>
         match RepoAdd_preparation os opts w1 with
         | Some e =>
             (RepoAdd os c name url opts (Close c w)).1 = ("", Some e) ∧
             launched (RepoAdd os c name url opts (Close c w)).2 = launched w
         | None =>
             ∃ args w0,
               environ w0 = environ w ∧ launched w0 = launched w ∧
               (RepoAdd os c name url opts (Close c w)).1
                 = (run os c args w0).1 ∧
               launched (RepoAdd os c name url opts (Close c w)).2
                 = launched w ++ [command c args w]
         end
     end).
Proof.
  destruct (RemoveAll_rest (helmHome c) w) as (Henv & Hseed & Hcr & Hla).
  fold (Close c w) in Henv, Hseed, Hcr, Hla.
  assert (Hcmd : ∀ args, command c args (Close c w) = command c args w)
    by (intros; by apply command_environ).
  split; [apply RemoveAll_idemp|].
  split; [apply RemoveAll_absent|].
  split; [intros Hne p Hp; by apply RemoveAll_lookup_below|].
  split; [intros p Hp; by apply RemoveAll_lookup_other|].
  split; [done|].
  split; [intros args; by rewrite run_launched, Hla, Hcmd|].
  split; [intros E; unfold Init; by rewrite E|].
  split; [intros E; unfold Init; by rewrite E|].
  split; [done|]. split; [done|].
  split; [| split].
  - intros chartPath opts.
    destruct (template_run c chartPath opts (Close c w))
      as (ks & ss & fls & w0 & Hk & Hs & Hf & Hfs & He & Hl & Hr).
    exists ks, ss, fls, w0. repeat split; try done; congruence.
  - intros repo chartName version destination creds.
    pose proof (Fetch_prepared_run c repo chartName version destination creds
                  (Close c w)) as H.
    destruct (Fetch_preparation os creds (Close c w)) as [e|].
    + by rewrite Hla in H.
    + destruct H as (args & w0 & He & Hl & Hr & Hl').
      exists args, w0. rewrite Hla, Hcmd in Hl'.
      split; [congruence|]. split; [congruence|]. done.
  - intros name url opts.
    pose proof (RepoAdd_prepared_run c name url opts (Close c w)) as H.
    destruct (TempDir os "" "helm" (Close c w)) as [[tmp [e|]] w1]; [exact H|].
    destruct (RepoAdd_preparation os opts w1) as [e|].
    + by rewrite Hla in H.
    + destruct H as (args & w0 & He & Hl & Hr & Hl').
      exists args, w0. rewrite Hla, Hcmd in Hl'.
      split; [congruence|]. split; [congruence|]. done.
Qed.

End CloseThenOperations.

(** ** Cmd.template: what reaches the command line *)

Lemma set_flags_app (flag : string) (l1 l2 : list (string * string)) :
  set_flags flag (l1 ++ l2) = set_flags flag l1 ++ set_flags flag l2.
Proof. unfold set_flags. by rewrite map_app, concat_app. Qed.

Lemma set_flags_entry (flag k v : string) (kvs : list (string * string)) :
  (k, v) ∈ kvs →
  ∃ pre post,
    set_flags flag kvs = pre ++ [flag; k +:+ "=" +:+ cleanSetParameters v] ++ post.
Proof.
  intros Hin. apply list_elem_of_split in Hin as (l1 & l2 & ->).
  exists (set_flags flag l1), (set_flags flag l2).
  rewrite set_flags_app. unfold set_flags at 2. simpl. done.
Qed.

Lemma length_set_flags (flag : string) (kvs : list (string * string)) :
  length (set_flags flag kvs) = 2 * length kvs.
Proof.
  unfold set_flags. induction kvs as [|kv kvs IH]; [done|].
  simpl in *. rewrite IH. lia.
Qed.

Lemma length_each_flag (flag : string) (vals : list string) :
  length (each_flag flag vals) = 2 * length vals.
Proof.
  unfold each_flag. induction vals as [|v vals IH]; [done|].
  simpl in *. rewrite IH. lia.
Qed.

Lemma length_flag_if (b : bool) (flag value : string) :
  length (flag_if b flag value) = if b then 2 else 0.
Proof. by destruct b. Qed.

Lemma range_order_elem (os : OS) (w : World) (m : gmap string string)
    (k v : string) :
  m !! k = Some v → (k, v) ∈ range_order os w m.
Proof.
  intros Hm. rewrite (range_order_perm os w m). by apply elem_of_map_to_list.
Qed.

(** X12: Every entry of the three mappings reaches the command line of the
    one process that [template] launches: the entry [k ↦ v] of [Set] is
    there as [--set] followed by [k=v'], [v'] being [v] with its commas
    escaped, and so for [SetString] with [--set-string] and for [SetFile]
    with [--set-file]. *)
Theorem template_passes_every_entry (os : OS) (c : Cmd) (chartPath : string)
    (opts : TemplateOpts) (w : World) (flag : string)
    (m : gmap string string) (k v : string) :
  (flag, m) ∈ [("--set", Set_ opts); ("--set-string", SetString opts);
               ("--set-file", SetFile opts)] →
  m !! k = Some v →
  ∃ p pre post,
    launched (template os c chartPath opts w).2 = launched w ++ [p] ∧
    Args p = pre ++ [flag; k +:+ "=" +:+ cleanSetParameters v] ++ post.
Proof.
  intros Hfm Hm.
  destruct (template_launched os c chartPath opts w)
    as (ks & ss & fls & Hk & Hs & Hf & Hl).
  exists (command c (template_args c chartPath opts ks ss fls) w).
  rewrite Hl. simpl Args. rewrite template_args_eq.
  apply elem_of_map_to_list in Hm.
  rewrite !elem_of_cons, elem_of_nil in Hfm.
  destruct Hfm as [E | [E | [E | []]]]; injection E as -> ->.
  - rewrite <- Hk in Hm.
    destruct (set_flags_entry "--set" k v ks Hm) as (pre & post & ->).
    exists (template_head c chartPath opts ++ pre),
      (post ++ set_flags "--set-string" ss ++ set_flags "--set-file" fls ++
       template_tail opts).
    split; [done|]. by rewrite <- !app_assoc.
  - rewrite <- Hs in Hm.
    destruct (set_flags_entry "--set-string" k v ss Hm) as (pre & post & ->).
    exists (template_head c chartPath opts ++ set_flags "--set" ks ++ pre),
      (post ++ set_flags "--set-file" fls ++ template_tail opts).
    split; [done|]. by rewrite <- !app_assoc.
  - rewrite <- Hf in Hm.
    destruct (set_flags_entry "--set-file" k v fls Hm) as (pre & post & ->).
    exists (template_head c chartPath opts ++ set_flags "--set" ks ++
            set_flags "--set-string" ss ++ pre),
      (post ++ template_tail opts).
    split; [done|]. by rewrite <- !app_assoc.
Qed.

Lemma template_passes_every_entry_witness :
  ∃ p pre post,
    launched (template quiet_os (session modern_profile) "chart" one_value
                start).2 = launched start ++ [p] ∧
    Args p = pre ++ ["--set"; "a" +:+ "=" +:+ cleanSetParameters "x,y"] ++ post.
Proof.
  apply (template_passes_every_entry quiet_os (session modern_profile) "chart"
           one_value start "--set" (Set_ one_value) "a" "x,y").
  - apply list_elem_of_here.
  - reflexivity.
Defined.

(** X13: The number of arguments on the command line of [template]: four
    leading arguments and two more for the namespace when it is given,
    for the Kubernetes version when it is given and the profile supports
    it, and for every entry of [Set], [SetString], [SetFile], [Values]
    and [APIVersions]. *)
Theorem template_argument_count (os : OS) (c : Cmd) (chartPath : string)
    (opts : TemplateOpts) (w : World) :
  ∃ p,
    launched (template os c chartPath opts w).2 = launched w ++ [p] ∧
    length (Args p) =
      4 + 2 * ((if nonempty (Namespace opts) then 1 else 0) +
               (if nonempty (KubeVersion opts) && kubeVersionSupported c
                then 1 else 0) +
               size (Set_ opts) + size (SetString opts) + size (SetFile opts) +
               length (Values opts) + length (APIVersions opts)).
Proof.
  destruct (template_launched os c chartPath opts w)
    as (ks & ss & fls & Hk & Hs & Hf & Hl).
  eexists. split; [exact Hl|]. simpl Args. rewrite template_args_eq.
  unfold template_head, template_tail.
  rewrite !length_app, !length_set_flags, !length_each_flag, !length_flag_if.
  rewrite Hk, Hs, Hf, !length_map_to_list. simpl length.
  destruct (nonempty (Namespace opts)),
    (nonempty (KubeVersion opts) && kubeVersionSupported c); lia.
Qed.

(** ** Opening and closing a session *)

Section OpenProperties.

Context (os : OS).

Lemma NewCmdWithVersion_cases (workDir : string) (version : HelmVer) (w : World) :
  (∃ e, NewCmdWithVersion os workDir version w = ((None, Some e), w)) ∨
  (∃ home, Str.mem "/" home = true ∧ fs w !! home = None ∧
     NewCmdWithVersion os workDir version w =
       ((Some {| ver := version; helmHome := home; WorkDir := workDir |}, None),
        {| fs := <[home := Directory]> (fs w); environ := environ w;
           seed := seed w; created := created w ++ [home];
           launched := launched w |})).
Proof.
  unfold NewCmdWithVersion, TempDir. go_unfold. simpl.
  destruct (create_temp_cases os Directory "mkdir" "" "helm" w)
    as [[e He] | (home & Hslash & Hfree & He)]; rewrite He; simpl.
  - left. by exists e.
  - right. by exists home.
Qed.

(** X14: [NewCmdWithVersion] returns a session or an error, never both and
    never neither; when it returns the error the world is as it was. *)
Theorem NewCmdWithVersion_session_or_error (workDir : string)
    (version : HelmVer) (w : World) :
  match (NewCmdWithVersion os workDir version w).1 with
  | (Some c, None) => ver c = version ∧ WorkDir c = workDir
  | (None, Some _) => (NewCmdWithVersion os workDir version w).2 = w
  | _ => False
  end.
Proof.
  destruct (NewCmdWithVersion_cases workDir version w)
    as [[e He] | (home & _ & _ & He)]; by rewrite He.
Qed.

(** X15: A session that [NewCmdWithVersion] returns has a home directory that
    did not exist before and is a directory now, and nothing has been
    launched.  [Close] on the session, right away, leaves nothing at or
    below the home directory and every other path as it was before the
    session was opened; when nothing was below the new name before, the
    file system is the one from before. *)
Theorem NewCmdWithVersion_then_Close (workDir : string) (version : HelmVer)
    (w w' : World) (c : Cmd) (err : option error) :
  NewCmdWithVersion os workDir version w = ((Some c, err), w') →
  err = None ∧
  fs w !! helmHome c = None ∧ fs w' !! helmHome c = Some Directory ∧
  launched w' = launched w ∧
  (∀ p, below (helmHome c) p = true → fs (Close c w') !! p = None) ∧
  (∀ p, below (helmHome c) p = false → fs (Close c w') !! p = fs w !! p) ∧
  ((∀ p, below (helmHome c) p = true → fs w !! p = None) →
   fs (Close c w') = fs w).
Proof.
  intros H.
  destruct (NewCmdWithVersion_cases workDir version w)
    as [[e He] | (home & Hslash & Hfree & He)]; rewrite He in H; [done|].
  injection H as <- <- <-. simpl.
  assert (Hne : home ≠ "") by by apply slash_nonempty.
  assert (Hout : ∀ p, below home p = false →
            fs (Close {| ver := version; helmHome := home; WorkDir := workDir |}
                  {| fs := <[home := Directory]> (fs w); environ := environ w;
                     seed := seed w; created := created w ++ [home];
                     launched := launched w |}) !! p = fs w !! p).
  { intros p Hp. unfold Close. simpl. rewrite RemoveAll_lookup_other by done.
    simpl. assert (home ≠ p) by (intros ->; by rewrite below_refl in Hp).
    by rewrite lookup_insert_ne. }
  assert (Hin : ∀ p, below home p = true →
            fs (Close {| ver := version; helmHome := home; WorkDir := workDir |}
                  {| fs := <[home := Directory]> (fs w); environ := environ w;
                     seed := seed w; created := created w ++ [home];
                     launched := launched w |}) !! p = None).
  { intros p Hp. unfold Close. simpl. by apply RemoveAll_lookup_below. }
  split; [done|]. split; [done|]. split; [by rewrite lookup_insert_eq|].
  split; [done|]. split; [done|]. split; [done|].
  intros Hfree'. apply map_eq. intros p.
  destruct (below home p) eqn:Hp.
  - by rewrite Hin, Hfree'.
  - by apply Hout.
Qed.

(** X16: Two sessions that are open together have different home
    directories: a session opened while the home directory of another
    one exists gets another name, and opening it leaves the first home
    in place. *)
Theorem sessions_have_distinct_homes (workDir1 workDir2 : string)
    (version1 version2 : HelmVer) (w w1 w2 w3 : World) (c1 c2 : Cmd)
    (err1 err2 : option error) :
  NewCmdWithVersion os workDir1 version1 w = ((Some c1, err1), w1) →
  is_Some (fs w2 !! helmHome c1) →
  NewCmdWithVersion os workDir2 version2 w2 = ((Some c2, err2), w3) →
  helmHome c2 ≠ helmHome c1 ∧ fs w3 !! helmHome c1 = fs w2 !! helmHome c1.
Proof.
  intros _ [n Hn] H2.
  destruct (NewCmdWithVersion_cases workDir2 version2 w2)
    as [[e He] | (home & Hslash & Hfree & He)]; rewrite He in H2; [done|].
  injection H2 as <- <- <-. simpl.
  assert (home ≠ helmHome c1) by (intros ->; congruence).
  split; [done|]. by rewrite lookup_insert_ne.
Qed.

(** X17: [NewCmd], whatever the detection of the version does: when the
    detection fails, its error is returned with no session and no home
    directory is made; when it gives a version, the result is that of
    [NewCmdWithVersion] for this version: an error and nothing made, or
    a session for the working directory, with the detected version and
    a home directory that is new. *)
Theorem NewCmd_outcome
    (getHelmVersion : string → World → (HelmVer + error) * World)
    (workDir : string) (w : World) :
  match getHelmVersion workDir w with
  | (inr err, w1) => NewCmd os getHelmVersion workDir w = ((None, Some err), w1)
  | (inl version, w1) =>
      (∃ e, NewCmd os getHelmVersion workDir w = ((None, Some e), w1)) ∨
      (∃ home, fs w1 !! home = None ∧
         NewCmd os getHelmVersion workDir w =
           ((Some {| ver := version; helmHome := home; WorkDir := workDir |},
             None),
            {| fs := <[home := Directory]> (fs w1); environ := environ w1;
               seed := seed w1; created := created w1 ++ [home];
               launched := launched w1 |}))
  end.
Proof.
  unfold NewCmd. unfold func at 1. go_unfold. simpl.
  destruct (getHelmVersion workDir w) as [[version | err] w1]; simpl; [|done].
  destruct (NewCmdWithVersion_cases workDir version w1)
    as [[e He] | (home & _ & Hfree & He)]; rewrite He; simpl.
  - left. by exists e.
  - right. by exists home.
Qed.

End OpenProperties.

Lemma NewCmdWithVersion_then_Close_witness :
  fs start !! "/tmp/helm0" = None ∧
  ∀ p, below "/tmp/helm0" p = true →
    fs (Close {| ver := modern_profile; helmHome := "/tmp/helm0";
                 WorkDir := "/work" |}
          (NewCmdWithVersion quiet_os "/work" modern_profile start).2) !! p
    = None.
Proof.
  destruct (NewCmdWithVersion_then_Close quiet_os "/work" modern_profile start
              (NewCmdWithVersion quiet_os "/work" modern_profile start).2
              {| ver := modern_profile; helmHome := "/tmp/helm0";
                 WorkDir := "/work" |} None)
    as (_ & Hfree & _ & _ & Hin & _); [vm_compute; reflexivity|].
  split; [exact Hfree | exact Hin].
Defined.

Lemma sessions_have_distinct_homes_witness :
  "/tmp/helm10" ≠ "/tmp/helm0" ∧
  fs (NewCmdWithVersion quiet_os "/b" modern_profile
        (NewCmdWithVersion quiet_os "/a" legacy_profile start).2).2
    !! "/tmp/helm0"
  = fs (NewCmdWithVersion quiet_os "/a" legacy_profile start).2 !! "/tmp/helm0".
Proof.
  apply (sessions_have_distinct_homes quiet_os "/a" "/b" legacy_profile
           modern_profile start
           (NewCmdWithVersion quiet_os "/a" legacy_profile start).2
           (NewCmdWithVersion quiet_os "/a" legacy_profile start).2
           (NewCmdWithVersion quiet_os "/b" modern_profile
              (NewCmdWithVersion quiet_os "/a" legacy_profile start).2).2
           {| ver := legacy_profile; helmHome := "/tmp/helm0"; WorkDir := "/a" |}
           {| ver := modern_profile; helmHome := "/tmp/helm10"; WorkDir := "/b" |}
           None None).
  - vm_compute; reflexivity.
  - exists Directory. vm_compute; reflexivity.
  - vm_compute; reflexivity.
Defined.

(** ** What the operations launch and return *)

Section Operations.

Context (os : OS).

Lemma RepoAdd_launched (c : Cmd) (name url : string) (opts : Creds) (w : World) :
  launches_at_most_once c w (RepoAdd os c name url opts w).2.
Proof.
  unfold launches_at_most_once. rewrite RepoAdd_run.
  destruct (create_temp_cases os Directory "mkdir" "" "helm" w)
    as [[e He] | (tmp & Hslash & Hfree & He)]; rewrite He; [by left|].
  match goal with |- context [RepoAdd_from os c name url opts ?a
                                {| world := ?w1; deferred := ?ds |}] =>
    destruct (RepoAdd_from_outcome os c name url opts a w1 ds)
      as [(e & w' & He' & Hla & Hfs)
         | (certFile & keyFile & w0 & Hen & Hla & Hc & Hk & Hq & He')];
    rewrite He'
  end; simpl in *.
  - left. by destruct (RemoveAll_rest tmp w') as (_ & _ & _ & ->).
  - right. eexists.
    match goal with |- context [RemoveAll tmp ?w3] =>
      destruct (RemoveAll_rest tmp w3) as (_ & _ & _ & ->) end.
    rewrite run_launched, Hla. f_equal. f_equal. by apply command_environ.
Qed.

Lemma Fetch_launched (c : Cmd) (repo chartName version destination : string)
    (creds : Creds) (w : World) :
  launches_at_most_once c w
    (Fetch os c repo chartName version destination creds w).2.
Proof.
  unfold launches_at_most_once. rewrite Fetch_eq.
  destruct (Fetch_from_cases os c repo chartName creds
              ([pullCommand c; "--destination"; destination] ++
               flag_if (nonempty version) "--version" version ++
               inline_cred_flags creds) w)
    as (new & _ & _ & [[Hl _] | (certPath & keyPath & _ & _ & Hl)]).
  - by left.
  - right. eexists. exact Hl.
Qed.

(** X18: No operation of a session launches more than one child process, and
    each child is the tool of the session's profile, started in the
    working directory with the environment of the caller and the four
    overrides after it.  [Init] launches [init --client-only
    --skip-refresh] when the profile has the init step and nothing
    otherwise; [dependencyBuild] launches [dependency build];
    [inspectValues] launches the profile's show command with [values]
    and the file; [template] launches once; [Fetch] and [RepoAdd] launch
    once or not at all. *)
Theorem operations_launch_at_most_once (c : Cmd) (w : World) :
  launched (Init os c w).2
    = launched w ++
      (if initSupported c
       then [command c ["init"; "--client-only"; "--skip-refresh"] w] else []) ∧
  launched (dependencyBuild os c w).2
    = launched w ++ [command c ["dependency"; "build"] w] ∧
  (∀ values, launched (inspectValues os c values w).2
     = launched w ++ [command c [showCommand c; "values"; values] w]) ∧
  (∀ chartPath opts, ∃ args,
     launched (template os c chartPath opts w).2
     = launched w ++ [command c args w]) ∧
  (∀ repo chartName version destination creds,
     launches_at_most_once c w
       (Fetch os c repo chartName version destination creds w).2) ∧
  (∀ name url opts,
     launches_at_most_once c w (RepoAdd os c name url opts w).2).
Proof.
  split; [| split; [| split; [| split; [| split]]]].
  - unfold Init. destruct (initSupported c).
    + apply run_launched.
    + simpl. by rewrite app_nil_r.
  - apply run_launched.
  - intros values. apply run_launched.
  - intros chartPath opts.
    destruct (template_launched os c chartPath opts w)
      as (ks & ss & fls & _ & _ & _ & Hl).
    eexists. exact Hl.
  - intros. apply Fetch_launched.
  - intros. apply RepoAdd_launched.
Qed.

End Operations.

(** ** Concrete runs *)

Lemma redactor_fields_witness :
  length (fields (redactor "a --password b")) = 3 ∧
  (fields "a --password b" !! 2 = Some "******" ∨
   ("******" = "******" ∧
    ∃ j f, 2 = S j ∧ fields "a --password b" !! j = Some f ∧
           ends_in_flag f = true)).
Proof.
  destruct (redactor_fields "a --password b") as [Hlen Hf].
  split; [exact Hlen|]. apply (Hf 2 "******"). reflexivity.
Defined.

Lemma cleanSetParameters_fixed_point_witness :
  cleanSetParameters "a\,b" = "a\,b".
Proof. apply (proj2 (cleanSetParameters_fixed_point "a\,b")). reflexivity. Defined.

Lemma Fetch_outcome_witness :
  ∃ certPath keyPath w0,
    fs w0 !! certPath = Some (Regular "CERT") ∧
    fs w0 !! keyPath = Some (Regular "KEY") ∧
    launched w0 = launched start.
Proof.
  destruct (Fetch_outcome quiet_os (session modern_profile) "https://repo"
              "chart" "" "/dest" client_cert start)
    as [(e & He & _) | (certPath & keyPath & w0 & _ & Hla & Hc & Hk & _)].
  - vm_compute in He. discriminate He.
  - exists certPath, keyPath, w0.
    split; [apply Hc; reflexivity|]. split; [apply Hk; reflexivity | exact Hla].
Defined.

Lemma RepoAdd_outcome_witness :
  ∃ certFile keyFile w0,
    fs w0 !! "/tmp/helm0" = Some Directory ∧
    fs w0 !! certFile = Some (Regular "CERT") ∧
    fs w0 !! keyFile = Some (Regular "KEY") ∧
    ∀ p, below "/tmp/helm0" p = true →
      fs (RepoAdd quiet_os (session modern_profile) "stable" "https://repo"
            client_cert start).2 !! p = None.
Proof.
  pose proof (RepoAdd_outcome quiet_os (session modern_profile) "stable"
                "https://repo" client_cert start) as H.
  assert (E : TempDir quiet_os "" "helm" start
              = (("/tmp/helm0", None), (TempDir quiet_os "" "helm" start).2))
    by (vm_compute; reflexivity).
  rewrite E in H. destruct H as (_ & _ & Hgone & H).
  assert (E2 : RepoAdd_preparation quiet_os client_cert
                 (TempDir quiet_os "" "helm" start).2 = None)
    by (vm_compute; reflexivity).
  rewrite E2 in H.
  destruct H as (certFile & keyFile & w0 & _ & _ & Htmp & Hc & Hk & _).
  exists certFile, keyFile, w0. split; [exact Htmp|].
  split; [apply Hc; reflexivity|]. split; [apply Hk; reflexivity | exact Hgone].
Defined.

Lemma Close_then_operations_witness :
  Init quiet_os (session modern_profile) (Close (session modern_profile) start)
    = (("", None), Close (session modern_profile) start) ∧
  (∀ p, below "/tmp/helm-home" p = true →
     fs (Close (session modern_profile) start) !! p = None) ∧
  ∃ args w0,
    launched w0 = launched start ∧
    (Fetch quiet_os (session modern_profile) "https://example.com" "chart"
       "1.2.3" "/dst" client_cert (Close (session modern_profile) start)).1
      = (run quiet_os (session modern_profile) args w0).1 ∧
    launched
      (Fetch quiet_os (session modern_profile) "https://example.com" "chart"
         "1.2.3" "/dst" client_cert (Close (session modern_profile) start)).2
      = launched start ++ [command (session modern_profile) args start].
Proof.
  destruct (Close_then_operations quiet_os (session modern_profile) start)
    as (_ & _ & Hgone & _ & _ & _ & Hinit & _ & _ & _ & _ & Hfetch & _).
  split; [apply Hinit; reflexivity|].
  split; [apply Hgone; discriminate|].
  pose proof (Hfetch "https://example.com" "chart" "1.2.3" "/dst" client_cert)
    as H.
  assert (E : Fetch_preparation quiet_os client_cert
                (Close (session modern_profile) start) = None)
    by (vm_compute; reflexivity).
  rewrite E in H. destruct H as (args & w0 & _ & Hl & Hr & Hl').
  exists args, w0. split; [exact Hl|]. split; [exact Hr | exact Hl'].
Defined.
